(** * goCache: an in-process key/value cache with per-entry expiration

    A shallow embedding of package [goCache] and the properties of its
    operations.

    Modelling choices.
    - [time.Duration], [int64] and [int] (on a 64-bit platform) are integers
      in [Z]; arithmetic that the program performs on them wraps around at
      64 bits ([wrap64]).
    - [time.Now().UnixNano()] is an input: every operation receives the
      reading of the clock it takes.  [Add] and [Replace] read the clock
      twice (once in [get], once in [set]) and so receive two readings.
    - [map[string]Item] is a [gmap string Item].
    - The mutex is one boolean; a [Lock] on a held mutex never returns
      ([Blocked]).
    - The eviction callback is an opaque function value: the code only tests
      it against nil and calls it.  Each call is recorded, together with the
      state of the cache the callee would observe; calling a nil function
      value panics. *)

From stdpp Require Import gmap strings list fin_maps.
From Stdlib Require Import ZArith Lia.

Local Open Scope Z_scope.

(** ** Machine integers *)

Definition min_int64 : Z := - 2 ^ 63.
Definition max_int64 : Z := 2 ^ 63 - 1.

(** Two's complement reduction to 64 bits. *)
Definition wrap64 (z : Z) : Z := (z + 2 ^ 63) mod 2 ^ 64 - 2 ^ 63.

(** ** Constants *)

Definition NoExpiration : Z := -1.
Definition DefaultExpiration : Z := 0.

(** The units of [time.Duration]. *)
Definition nanosecond : Z := 1.
Definition second : Z := 1000000000 * nanosecond.
Definition minute : Z := 60 * second.

(** ** Data model *)

(** [interface{}]: the value together with its dynamic type.  [OInt] is the
    dynamic type [int], the only one [Increment] accepts. *)
Inductive Object : Type :=
| ONil
| OInt (i : Z)
| OInt64 (i : Z)
| OString (s : string)
| OBool (b : bool)
| OOther (type_name : string).

Record Item : Type := mkItem {
  Object_of : Object;
  Expiration : Z
}.

(** [item.Expired()], at clock reading [now]. *)
Definition Expired (item : Item) (now : Z) : bool :=
  if Expiration item =? 0 then false
  else now >? Expiration item.

(** A non-nil [func(string, interface{})] value. *)
Inductive handler : Type := Handler (id : nat).

(** The [stop] channel of the janitor is what delivers [StopSignal] to
    [Run] below. *)
Record janitor : Type := mkJanitor {
  Interval : Z
}.

Record cache : Type := mkCache {
  defaultExpiration : Z;
  items : gmap string Item;
  mu : bool;                      (* true: the mutex is held *)
  onEvicted : option handler;     (* None: nil *)
  janitor_of : option janitor     (* None: nil *)
}.

Definition with_items (m : gmap string Item) (c : cache) : cache :=
  mkCache (defaultExpiration c) m (mu c) (onEvicted c) (janitor_of c).

Definition with_mu (b : bool) (c : cache) : cache :=
  mkCache (defaultExpiration c) (items c) b (onEvicted c) (janitor_of c).

Definition with_janitor (j : option janitor) (c : cache) : cache :=
  mkCache (defaultExpiration c) (items c) (mu c) (onEvicted c) j.

(** One invocation of the eviction callback: the function called, its two
    arguments, and what the callee finds when it is entered (the storage,
    and whether the mutex is held). *)
Record call : Type := mkCall {
  call_fn : handler;
  call_key : string;
  call_value : Object;
  call_items : gmap string Item;
  call_locked : bool
}.

(** ** Errors *)

(** The three [fmt.Errorf] values of the package, under the names the
    specification gives them. *)
Definition KeyExists (k : string) : string :=
  "Item:" +:+ k +:+ " has already exit".
Definition KeyNotFound_Replace (k : string) : string :=
  "Item:" +:+ k +:+ " dosen't exit".
Definition KeyNotFound_Increment : string := "Item not found or expired".
Definition UnsupportedType : string := "not support value tyepe".

(** [error]: [None] is nil. *)
Definition error : Type := option string.

(** ** Computations on a cache *)

Inductive result (A : Type) : Type :=
| Ok (a : A) (c : cache) (calls : list call)
| Blocked
| Panic.
Arguments Ok {A} a c calls.
Arguments Blocked {A}.
Arguments Panic {A}.

Definition M (A : Type) : Type := cache -> result A.

Definition ret {A : Type} (a : A) : M A := fun c => Ok a c [].

Definition bind {A B : Type} (m : M A) (f : A -> M B) : M B :=
  fun c =>
    match m c with
    | Ok a c1 l1 =>
        match f a c1 with
        | Ok b c2 l2 => Ok b c2 (l1 ++ l2)
        | Blocked => Blocked
        | Panic => Panic
        end
    | Blocked => Blocked
    | Panic => Panic
    end.

Notation "'do' x <- m ; k" := (bind m (fun x => k))
  (at level 10, x name, m at level 100, k at level 200,
   format "'[v' 'do'  x  <-  m ; '/' k ']'").

(** [c.mu.Lock()] *)
Definition Lock : M unit :=
  fun c => if mu c then Blocked else Ok tt (with_mu true c) [].

(** [c.mu.Unlock()]; unlocking a mutex that is not held is a fatal error. *)
Definition Unlock : M unit :=
  fun c => if mu c then Ok tt (with_mu false c) [] else Panic.

Definition read {A : Type} (f : cache -> A) : M A :=
  fun c => Ok (f c) c [].

(** [c.items[k] = item] *)
Definition store (k : string) (item : Item) : M unit :=
  fun c => Ok tt (with_items (<[k := item]> (items c)) c) [].

(** [delete(c.items, k)] *)
Definition remove (k : string) : M unit :=
  fun c => Ok tt (with_items (delete k (items c)) c) [].

(** [c.items = map[string]Item{}] *)
Definition clear : M unit :=
  fun c => Ok tt (with_items ∅ c) [].

(** [c.onEvicted(k, v)] *)
Definition call_onEvicted (k : string) (v : Object) : M unit :=
  fun c =>
    match onEvicted c with
    | None => Panic
    | Some f => Ok tt c [mkCall f k v (items c) (mu c)]
    end.

(** ** Operations *)

(** [time.Now().Add(d).UnixNano()] when the clock reads [now]. *)
Definition UnixNano_after (now d : Z) : Z := wrap64 (now + d).

Definition Set_ (k : string) (x : Object) (d : Z) (now : Z) : M unit :=
  do de <- read defaultExpiration;
  let d := if d =? DefaultExpiration then de else d in
  let e := if d >? 0 then UnixNano_after now d else 0 in
  do _ <- Lock;
  do _ <- store k (mkItem x e);
  Unlock.

Definition set (k : string) (x : Object) (d : Z) (now : Z) : M unit :=
  do de <- read defaultExpiration;
  let d := if d =? DefaultExpiration then de else d in
  let e := if d >? 0 then UnixNano_after now d else 0 in
  store k (mkItem x e).

Definition get (k : string) (now : Z) : M (Object * bool) :=
  do m <- read items;
  match m !! k with
  | None => ret (ONil, false)
  | Some item =>
      if (Expiration item >? 0) && (Expiration item <? now)
      then ret (ONil, false)
      else ret (Object_of item, true)
  end.

(** The clock is read at [now] by [get] and at [now'] by [set]. *)
Definition Add (k : string) (x : Object) (d : Z) (now now' : Z) : M error :=
  do _ <- Lock;
  do r <- get k now;
  if snd r then ret (Some (KeyExists k))
  else
    do _ <- set k x d now';
    do _ <- Unlock;
    ret None.

Definition Replace (k : string) (x : Object) (d : Z) (now now' : Z)
  : M error :=
  do _ <- Lock;
  do r <- get k now;
  if negb (snd r) then
    do _ <- Unlock;
    ret (Some (KeyNotFound_Replace k))
  else
    do _ <- set k x d now';
    do _ <- Unlock;
    ret None.

(** [int] addition. *)
Definition add_int (a b : Z) : Z := wrap64 (a + b).

Definition Increment (k : string) (n : Z) (now : Z) : M error :=
  do _ <- Lock;
  do m <- read items;
  match m !! k with
  | None =>
      do _ <- Unlock;
      ret (Some KeyNotFound_Increment)
  | Some v =>
      if Expired v now then
        do _ <- Unlock;
        ret (Some KeyNotFound_Increment)
      else
        match Object_of v with
        | OInt i =>
            do _ <- store k (mkItem (OInt (add_int i n)) (Expiration v));
            do _ <- Unlock;
            ret None
        | _ =>
            do _ <- Unlock;
            ret (Some UnsupportedType)
        end
  end.

Definition Get (k : string) (now : Z) : M (Object * bool) :=
  do _ <- Lock;
  do m <- read items;
  match m !! k with
  | None =>
      do _ <- Unlock;
      ret (ONil, false)
  | Some item =>
      if Expiration item <? now then
        do _ <- Unlock;
        ret (ONil, false)
      else
        do _ <- Unlock;
        ret (Object_of item, true)
  end.

(** [c.delete(k)], lower case: the caller holds the mutex. *)
Definition delete_ (k : string) : M (Object * bool) :=
  do f <- read onEvicted;
  do m <- read items;
  match f, m !! k with
  | Some _, Some v =>
      do _ <- remove k;
      ret (Object_of v, true)
  | _, _ =>
      do _ <- remove k;
      ret (ONil, false)
  end.

Definition Delete (k : string) : M unit :=
  do _ <- Lock;
  do r <- delete_ k;
  do _ <- Unlock;
  if snd r then call_onEvicted k (fst r) else ret tt.

Record kv : Type := mkKv {
  key : string;
  value : Object
}.

(** The body of [for k, v := range c.items] in [DeleteExpired], for the
    key [k].  [range] does not produce an entry that is no longer in the
    map. *)
Definition DeleteExpired_body (timeNow : Z) (evictedItems : list kv)
  (k : string) : M (list kv) :=
  do m <- read items;
  match m !! k with
  | None => ret evictedItems
  | Some v =>
      if (Expiration v >? 0) && (Expiration v <? timeNow) then
        do r <- delete_ k;
        if snd r then ret (evictedItems ++ [mkKv k (fst r)])
        else ret evictedItems
      else ret evictedItems
  end.

Fixpoint DeleteExpired_range (timeNow : Z) (order : list string)
  (evictedItems : list kv) : M (list kv) :=
  match order with
  | [] => ret evictedItems
  | k :: rest =>
      do evictedItems' <- DeleteExpired_body timeNow evictedItems k;
      DeleteExpired_range timeNow rest evictedItems'
  end.

Fixpoint DeleteExpired_notify (evictedItems : list kv) : M unit :=
  match evictedItems with
  | [] => ret tt
  | v :: rest =>
      do _ <- call_onEvicted (key v) (value v);
      DeleteExpired_notify rest
  end.

(** [order] is the order in which [range] visits the keys of the map, which
    Go leaves unspecified. *)
Definition DeleteExpired (timeNow : Z) (order : list string) : M unit :=
  do _ <- Lock;
  do evictedItems <- DeleteExpired_range timeNow order [];
  do _ <- Unlock;
  DeleteExpired_notify evictedItems.

(** An order in which [range] may visit the map [m]. *)
Definition range_order (m : gmap string Item) (order : list string) : Prop :=
  order ≡ₚ (map_to_list m).*1.

Definition ItemCount : M Z :=
  do _ <- Lock;
  do m <- read items;
  do _ <- Unlock;
  ret (Z.of_nat (size m)).

Definition Flush : M unit :=
  do _ <- Lock;
  do _ <- clear;
  Unlock.

(** ** The janitor and construction *)

(** What wakes the janitor's [select]: a tick of its ticker, on which the
    sweep reads the clock at [now] and ranges over the map in [order], or a
    value on its [stop] channel. *)
Inductive signal : Type :=
| Tick (now : Z) (order : list string)
| StopSignal.

Inductive run_state : Type := Running | Stopped.

Fixpoint Run_loop (signals : list signal) : M run_state :=
  match signals with
  | [] => ret Running
  | Tick now order :: rest =>
      do _ <- DeleteExpired now order;
      Run_loop rest
  | StopSignal :: _ => ret Stopped
  end.

(** [j.Run(c)]; [time.NewTicker] panics on a non-positive interval. *)
Definition Run (j : janitor) (signals : list signal) : M run_state :=
  if Interval j <=? 0 then (fun _ => Panic) else Run_loop signals.

(** What a constructor leaves with the Go runtime: the goroutines it
    started ([go j.Run(c)]) and whether [stopJanitor] was registered as
    finalizer. *)
Inductive goroutine : Type := GoRun (j : janitor).

Record runtime : Type := mkRuntime {
  goroutines : list goroutine;
  finalizer : bool
}.

Definition runJanitor (c : cache) (ci : Z) : cache * list goroutine :=
  let j := mkJanitor ci in
  (with_janitor (Some j) c, [GoRun j]).

Definition newCache (de : Z) (m : gmap string Item) : cache :=
  let de := if de =? 0 then -1 else de in
  mkCache de m false None None.

Definition newCacheWithJanitor (defaultExpiration cleanupInterval : Z)
  (items : gmap string Item) : cache * runtime :=
  let c := newCache defaultExpiration items in
  if cleanupInterval >? 0 then
    let '(c', gs) := runJanitor c cleanupInterval in
    (c', mkRuntime gs true)
  else (c, mkRuntime [] false).

(** The exported [Cache] holds nothing but the pointer to the [cache], and
    stands for it here. *)
Definition New (defaultExpiration cleanupInterval : Z) : cache * runtime :=
  newCacheWithJanitor defaultExpiration cleanupInterval ∅.

(** ** Running an operation *)

(** The cache after an operation: the one it leaves when it returns, and
    the one it was given when it does not. *)
Definition cache_after {A : Type} (r : result A) (c : cache) : cache :=
  match r with
  | Ok _ c' _ => c'
  | _ => c
  end.

(** The value an operation returns, when it returns. *)
Definition returned {A : Type} (r : result A) : option A :=
  match r with
  | Ok a _ _ => Some a
  | _ => None
  end.

(** The cache an operation leaves, when it returns. *)
Definition left_by {A : Type} (r : result A) : option cache :=
  match r with
  | Ok _ c' _ => Some c'
  | _ => None
  end.

(** ** The calls a client can make *)

Inductive op : Type :=
| OpSet (k : string) (x : Object) (d now : Z)
| OpAdd (k : string) (x : Object) (d now now' : Z)
| OpReplace (k : string) (x : Object) (d now now' : Z)
| OpIncrement (k : string) (n now : Z)
| OpGet (k : string) (now : Z)
| OpDelete (k : string)
| OpDeleteExpired (timeNow : Z) (order : list string)
| OpItemCount
| OpFlush.

Definition exec (o : op) (c : cache) : option cache :=
  match o with
  | OpSet k x d now => left_by (Set_ k x d now c)
  | OpAdd k x d now now' => left_by (Add k x d now now' c)
  | OpReplace k x d now now' => left_by (Replace k x d now now' c)
  | OpIncrement k n now => left_by (Increment k n now c)
  | OpGet k now => left_by (Get k now c)
  | OpDelete k => left_by (Delete k c)
  | OpDeleteExpired timeNow order => left_by (DeleteExpired timeNow order c)
  | OpItemCount => left_by (ItemCount c)
  | OpFlush => left_by (Flush c)
  end.

(** The call is a [Delete] or a [DeleteExpired]. *)
Definition is_deletion (o : op) : bool :=
  match o with
  | OpDelete _ | OpDeleteExpired _ _ => true
  | _ => false
  end.

(** The call [o] on [c] removes the key [k]: [k] holds an item before the
    call and none after it. *)
Definition removes (o : op) (c : cache) (k : string) : Prop :=
  exists item c',
    items c !! k = Some item /\ exec o c = Some c' /\ items c' !! k = None.

(** ** Notions used in the statements *)

(** The deadline of [item] has passed at [now]: its timestamp is a positive
    instant before [now].  This is the test of [get] and of the sweep. *)
Definition past_deadline (item : Item) (now : Z) : Prop :=
  0 < Expiration item /\ Expiration item < now.

#[global] Instance past_deadline_dec (item : Item) (now : Z) :
  Decision (past_deadline item now).
Proof. unfold past_deadline. apply _. Defined.

(** An item is live when its deadline has not passed; one with the
    timestamp 0, which never expires, is live at every time. *)
Definition live (item : Item) (now : Z) : Prop := ~ past_deadline item now.

#[global] Instance live_dec (item : Item) (now : Z) : Decision (live item now).
Proof. unfold live. apply _. Defined.

(** What the sweep at [timeNow] records for the key [k] of the map [m]. *)
Definition evicted_at (m : gmap string Item) (timeNow : Z) (k : string)
  : option kv :=
  match m !! k with
  | Some v =>
      if decide (past_deadline v timeNow) then Some (mkKv k (Object_of v))
      else None
  | None => None
  end.

Definition evicted_of (m : gmap string Item) (timeNow : Z)
  (order : list string) : list kv :=
  omap (evicted_at m timeNow) order.

(** The entry [entry] is not one that a sweep visiting [order] removes. *)
Definition stays (timeNow : Z) (order : list string)
  (entry : string * Item) : Prop :=
  ~ (entry.1 ∈ order /\ past_deadline entry.2 timeNow).

#[global] Instance stays_dec (timeNow : Z) (order : list string)
  (entry : string * Item) : Decision (stays timeNow order entry).
Proof. unfold stays. apply _. Defined.

(** The entry is live at [now]. *)
Definition live_entry (now : Z) (entry : string * Item) : Prop :=
  live entry.2 now.

#[global] Instance live_entry_dec (now : Z) (entry : string * Item) :
  Decision (live_entry now entry).
Proof. unfold live_entry. apply _. Defined.

(** The deadline of the entry has passed at [now]. *)
Definition dead_entry (now : Z) (entry : string * Item) : Prop :=
  past_deadline entry.2 now.

#[global] Instance dead_entry_dec (now : Z) (entry : string * Item) :
  Decision (dead_entry now entry).
Proof. unfold dead_entry. apply _. Defined.

(** The timestamp that [Set] and [set] give an item stored at [now] with
    duration [d]. *)
Definition resolved (c : cache) (d now : Z) : Z :=
  let d := if d =? DefaultExpiration then defaultExpiration c else d in
  if d >? 0 then UnixNano_after now d else 0.

(** The usage shown in the example program, with the clock advancing by
    one nanosecond from call to call. *)
Definition usage : M (list (Object * bool) * Z) :=
  do _ <- Set_ "foo" (OString "bar") DefaultExpiration 1000;
  do foo <- Get "foo" 1001;
  do _ <- Set_ "num" (OInt 10) DefaultExpiration 1002;
  do _ <- Increment "num" 1 1003;
  do num <- Get "num" 1004;
  do _ <- Replace "foo" (OString "change") DefaultExpiration 1005 1006;
  do foo' <- Get "foo" 1007;
  do _ <- Set_ "test" (OString "hehe") DefaultExpiration 1008;
  do n <- ItemCount;
  do _ <- Delete "foo";
  do gone <- Get "foo" 1009;
  ret ([foo; num; foo'; gone], n).

(** ** Further operations and notions *)

(** [c.Item()]: the map itself, returned with the deferred [Unlock] run
    after the result has been evaluated. *)
Definition Item_ : M (gmap string Item) :=
  do _ <- Lock;
  do m <- read items;
  do _ <- Unlock;
  ret m.

(** The calls of the eviction callback that an operation makes. *)
Definition calls_of {A : Type} (r : result A) : list call :=
  match r with
  | Ok _ _ calls => calls
  | _ => []
  end.

(** The key a call names, for the calls that name one. *)
Definition target (o : op) : option string :=
  match o with
  | OpSet k _ _ _ | OpAdd k _ _ _ _ | OpReplace k _ _ _ _
  | OpIncrement k _ _ | OpGet k _ | OpDelete k => Some k
  | OpDeleteExpired _ _ | OpItemCount | OpFlush => None
  end.

(** The duration [Set] works with once the default sentinel is replaced. *)
Definition duration_of (c : cache) (d : Z) : Z :=
  if d =? DefaultExpiration then defaultExpiration c else d.

(** The clock readings of the ticks in [signals]. *)
Definition tick_times (signals : list signal) : list Z :=
  omap (fun s => match s with
                 | Tick now _ => Some now
                 | StopSignal => None
                 end) signals.

(** A call, run for its effect on the cache and the callback. *)
Definition run_op (o : op) (c : cache) : result unit :=
  let forget {A : Type} (r : result A) : result unit :=
    match r with
    | Ok _ c' calls => Ok tt c' calls
    | Blocked => Blocked
    | Panic => Panic
    end in
  match o with
  | OpSet k x d now => forget (Set_ k x d now c)
  | OpAdd k x d now now' => forget (Add k x d now now' c)
  | OpReplace k x d now now' => forget (Replace k x d now now' c)
  | OpIncrement k n now => forget (Increment k n now c)
  | OpGet k now => forget (Get k now c)
  | OpDelete k => forget (Delete k c)
  | OpDeleteExpired timeNow order => forget (DeleteExpired timeNow order c)
  | OpItemCount => forget (ItemCount c)
  | OpFlush => forget (Flush c)
  end.

(** A sequence of calls made one after the other by one goroutine. *)
Fixpoint run_ops (os : list op) : M unit :=
  match os with
  | [] => ret tt
  | o :: rest =>
      do _ <- run_op o;
      run_ops rest
  end.

(** ** Tactics *)

(** Unfolds an operation down to the primitive steps on the cache record. *)
Ltac unfold_op :=
  unfold Add, Replace, Delete, Set_, Increment, Get, ItemCount, Flush, Item_;
  unfold set, get, delete_;
  unfold bind, ret, read, Lock, Unlock, store, remove, clear,
    call_onEvicted, with_items, with_mu; simpl.

(** Opens a cache whose mutex is known to be free. *)
Ltac open_cache c de m f j :=
  let b := fresh "b" in
  destruct c as [de m b f j]; simpl in *; subst b.

(** ** Basic facts *)

Lemma wrap64_id (z : Z) :
  min_int64 <= z <= max_int64 -> wrap64 z = z.
Proof.
  unfold min_int64, max_int64, wrap64. intros Hz.
  rewrite Z.mod_small by lia. lia.
Qed.

Lemma with_items_id (c : cache) : with_items (items c) c = c.
Proof. destruct c; reflexivity. Qed.

(** ** Get *)

(** [Get] applies its deadline test to every item, the zero timestamp of an
    item that never expires included. *)
Lemma Get_zero_Expiration (c : cache) (k : string) (item : Item) (now : Z) :
  mu c = false ->
  items c !! k = Some item ->
  Expiration item = 0 ->
  0 < now ->
  Get k now c = Ok (ONil, false) c [].
Proof.
  intros Hmu Hk He Hnow. open_cache c de m f j.
  unfold_op. rewrite Hk, He.
  destruct (0 <? now) eqn:E; [reflexivity | lia].
Qed.

(** [get], used by [Add] and [Replace], finds the same item. *)
Lemma get_zero_Expiration (c : cache) (k : string) (item : Item) (now : Z) :
  items c !! k = Some item ->
  Expiration item = 0 ->
  get k now c = Ok (Object_of item, true) c [].
Proof.
  intros Hk He. destruct c as [de m b f j]; simpl in *.
  unfold_op. rewrite Hk, He. reflexivity.
Qed.

(** What [Get] does on a cache whose mutex is free. *)
Lemma Get_run (c : cache) (k : string) (now : Z) :
  mu c = false ->
  Get k now c =
    match items c !! k with
    | None => Ok (ONil, false) c []
    | Some item =>
        if Expiration item <? now then Ok (ONil, false) c []
        else Ok (Object_of item, true) c []
    end.
Proof.
  intros Hmu. open_cache c de m f j. unfold_op.
  destruct (m !! k) as [item|]; [|reflexivity].
  destruct (Expiration item <? now); reflexivity.
Qed.

(** An item with a positive timestamp is returned by [Get] until the clock
    has gone past the timestamp. *)
Lemma Get_before_deadline (c : cache) (k : string) (item : Item) (now : Z) :
  mu c = false ->
  items c !! k = Some item ->
  0 < Expiration item ->
  (now <= Expiration item -> Get k now c = Ok (Object_of item, true) c []) /\
  (Expiration item < now -> Get k now c = Ok (ONil, false) c []).
Proof.
  intros Hmu Hk Hpos. rewrite Get_run by exact Hmu. rewrite Hk.
  destruct (Expiration item <? now) eqn:E.
  - apply Z.ltb_lt in E. split; [lia | reflexivity].
  - apply Z.ltb_ge in E. split; [reflexivity | lia].
Qed.

(** ** Set *)

(** What [Set] does on a cache whose mutex is free. *)
Lemma Set_run (c : cache) (k : string) (x : Object) (d now : Z) :
  mu c = false ->
  Set_ k x d now c =
    Ok tt (with_items (<[k := mkItem x (resolved c d now)]> (items c)) c) [].
Proof.
  intros Hmu. open_cache c de m f j. unfold_op. reflexivity.
Qed.

(** The cache that [New] builds. *)
Lemma New_run_cache (de ci : Z) :
  fst (New de ci) =
    mkCache (if de =? 0 then -1 else de) ∅ false None
      (if ci >? 0 then Some (mkJanitor ci) else None).
Proof.
  unfold New, newCacheWithJanitor, runJanitor, newCache.
  destruct (ci >? 0); reflexivity.
Qed.

(** C1. An item stored with [NoExpiration] should be returned by [Get] at
    every later time.  It is not: on a fresh cache, [Set] with
    [NoExpiration] stores the timestamp 0, and one nanosecond later [Get]
    answers [(nil, false)], because its test [item.Expiration < now] has no
    exception for 0.  The unexported [get] and [Expired] both find the item
    alive. *)
Theorem Get_misses_NoExpiration_item :
  let c0 := fst (New 0 0) in
  let t := 1700000000 * second in
  let c1 := cache_after (Set_ "foo" (OString "bar") NoExpiration t c0) c0 in
  items c1 !! "foo" = Some (mkItem (OString "bar") 0) /\
  Get "foo" (t + 1) c1 = Ok (ONil, false) c1 [] /\
  get "foo" (t + 1) c1 = Ok (OString "bar", true) c1 [] /\
  Expired (mkItem (OString "bar") 0) (t + 1) = false.
Proof. vm_compute. repeat split; reflexivity. Qed.

(** C2, as the claim has it, fails when [now + ttl] does not fit in an
    [int64]: on a fresh cache, at a clock reading of 2023, [Set] with the
    largest duration stores the sum reduced to 64 bits, a negative timestamp
    and not [now + ttl], and [Get] reports the key missing one nanosecond
    later. *)
Lemma Set_overflow_wraps_timestamp :
  let c0 := fst (New 0 0) in
  let t := 1700000000 * second in
  let c1 := cache_after (Set_ "foo" (OString "bar") max_int64 t c0) c0 in
  0 < max_int64 /\
  min_int64 <= t <= max_int64 /\
  Set_ "foo" (OString "bar") max_int64 t c0 = Ok tt c1 [] /\
  items c1 !! "foo" = Some (mkItem (OString "bar") (t + max_int64 - 2 ^ 64)) /\
  t + max_int64 - 2 ^ 64 < 0 /\
  items c1 !! "foo" <> Some (mkItem (OString "bar") (t + max_int64)) /\
  Get "foo" (t + 1) c1 = Ok (ONil, false) c1 [].
Proof.
  vm_compute. repeat split; try reflexivity; discriminate.
Qed.

(** C2, amended.  On a cache whose mutex is free, [Set] returns and stores
    under the key the value with a timestamp [e], leaving every other key,
    the configuration and the mutex as they were.  The default sentinel 0
    stands for the cache's [defaultExpiration]; a negative duration gives
    the timestamp 0 of an item that never expires; a positive duration gives
    [now + ttl] reduced to 64 bits, which is [now + ttl] whenever that sum
    is an [int64]; and on a cache built by [New] with default expiration 0
    the default sentinel stores an item that never expires. *)
Theorem Set_resolves_ttl (c : cache) (k : string) (x : Object) (ttl now : Z) :
  mu c = false ->
  exists e,
    Set_ k x ttl now c =
      Ok tt (with_items (<[k := mkItem x e]> (items c)) c) [] /\
    (let c' := cache_after (Set_ k x ttl now c) c in
     items c' !! k = Some (mkItem x e) /\
     (forall k', k' <> k -> items c' !! k' = items c !! k') /\
     mu c' = false /\
     defaultExpiration c' = defaultExpiration c /\
     onEvicted c' = onEvicted c /\
     janitor_of c' = janitor_of c) /\
    (ttl = DefaultExpiration ->
       Set_ k x ttl now c = Set_ k x (defaultExpiration c) now c /\
       e = (if defaultExpiration c >? 0
            then wrap64 (now + defaultExpiration c) else 0) /\
       (0 < defaultExpiration c ->
        min_int64 <= now + defaultExpiration c <= max_int64 ->
        e = now + defaultExpiration c)) /\
    (ttl < 0 -> e = 0) /\
    (0 < ttl ->
       e = wrap64 (now + ttl) /\
       (min_int64 <= now + ttl <= max_int64 -> e = now + ttl)) /\
    (forall cleanupInterval,
       let c0 := fst (New 0 cleanupInterval) in
       Set_ k x DefaultExpiration now c0 =
         Ok tt (with_items (<[k := mkItem x 0]> (items c0)) c0) [] /\
       items (cache_after (Set_ k x DefaultExpiration now c0) c0) !! k =
         Some (mkItem x 0)).
Proof.
  intros Hmu. exists (resolved c ttl now).
  rewrite !Set_run by exact Hmu.
  split; [reflexivity|]. split; [|split; [|split; [|split]]].
  - cbn [cache_after]. destruct c as [de m b f j]. unfold with_items.
    cbn [items defaultExpiration mu onEvicted janitor_of] in *.
    split; [apply lookup_insert_eq|].
    split; [intros k' Hne; apply lookup_insert_ne; congruence|].
    repeat split; try reflexivity. exact Hmu.
  - intros ->. unfold resolved, UnixNano_after, DefaultExpiration.
    change (0 =? 0) with true. cbv iota.
    split; [destruct (defaultExpiration c =? 0); reflexivity|].
    split; [reflexivity|].
    intros Hpos Hr.
    destruct (defaultExpiration c >? 0) eqn:E; [|lia].
    apply wrap64_id. exact Hr.
  - intros Hneg. unfold resolved, DefaultExpiration.
    destruct (ttl =? 0) eqn:E; [lia|].
    destruct (ttl >? 0) eqn:E'; [lia|]. reflexivity.
  - intros Hpos. unfold resolved, UnixNano_after, DefaultExpiration.
    destruct (ttl =? 0) eqn:E; [lia|].
    destruct (ttl >? 0) eqn:E'; [|lia].
    split; [reflexivity|].
    intros Hr. apply wrap64_id. exact Hr.
  - intros ci c0.
    assert (Hc0 : c0 = mkCache (-1) ∅ false None
                         (if ci >? 0 then Some (mkJanitor ci) else None)).
    { subst c0. rewrite New_run_cache. reflexivity. }
    rewrite Hc0. split; [reflexivity|]. apply lookup_insert_eq.
Qed.

Lemma Set_resolves_ttl_witness :
  let c := fst (New (10 * minute) (30 * second)) in
  mu c = false /\
  0 < 5 * second /\
  min_int64 <= 1000 + 5 * second <= max_int64 /\
  exists e,
    Set_ "foo" (OString "bar") (5 * second) 1000 c =
      Ok tt (with_items (<["foo" := mkItem (OString "bar") e]> (items c)) c) []
    /\ e = 1000 + 5 * second.
Proof.
  intros c.
  assert (Hpos : 0 < 5 * second) by reflexivity.
  assert (Hr : min_int64 <= 1000 + 5 * second <= max_int64)
    by (vm_compute; split; discriminate).
  split; [reflexivity|]. split; [exact Hpos|]. split; [exact Hr|].
  destruct (Set_resolves_ttl c "foo" (OString "bar") (5 * second) 1000 eq_refl)
    as (e & Hrun & _ & _ & _ & Hp & _).
  exists e. split; [exact Hrun|]. exact (proj2 (Hp Hpos) Hr).
Defined.

(** ** The deadline test *)

Lemma past_deadline_test (item : Item) (now : Z) :
  (Expiration item >? 0) && (Expiration item <? now) = true <->
  past_deadline item now.
Proof.
  unfold past_deadline. rewrite andb_true_iff, Z.gtb_lt, Z.ltb_lt. tauto.
Qed.

Lemma live_test (item : Item) (now : Z) :
  (Expiration item >? 0) && (Expiration item <? now) = false <->
  live item now.
Proof.
  unfold live. rewrite <- past_deadline_test.
  destruct ((Expiration item >? 0) && (Expiration item <? now)); split;
    intros H; congruence.
Qed.

Lemma live_iff (item : Item) (now : Z) :
  live item now <-> Expiration item <= 0 \/ now <= Expiration item.
Proof. unfold live, past_deadline. lia. Qed.

(** On timestamps that are not negative, [Expired] is the deadline test. *)
Lemma Expired_past_deadline (item : Item) (now : Z) :
  0 <= Expiration item ->
  Expired item now = true <-> past_deadline item now.
Proof.
  unfold Expired, past_deadline. intros Hnn.
  destruct (Expiration item =? 0) eqn:E.
  - apply Z.eqb_eq in E. split; [discriminate | lia].
  - apply Z.eqb_neq in E. rewrite Z.gtb_lt. lia.
Qed.

(** ** get and set *)

Lemma get_run (c : cache) (k : string) (now : Z) :
  get k now c =
    match items c !! k with
    | None => Ok (ONil, false) c []
    | Some item =>
        if (Expiration item >? 0) && (Expiration item <? now)
        then Ok (ONil, false) c []
        else Ok (Object_of item, true) c []
    end.
Proof.
  destruct c as [de m b f j]. unfold_op.
  destruct (m !! k) as [item|]; [|reflexivity].
  destruct ((Expiration item >? 0) && (Expiration item <? now)); reflexivity.
Qed.

Lemma set_run (c : cache) (k : string) (x : Object) (d now : Z) :
  set k x d now c =
    Ok tt (with_items (<[k := mkItem x (resolved c d now)]> (items c)) c) [].
Proof. destruct c as [de m b f j]. reflexivity. Qed.

(** ** Add *)

(** [Add] on a key that holds a live item: the error is returned with the
    mutex still held. *)
Lemma Add_live (c : cache) (k : string) (x : Object) (d now now' : Z)
  (item : Item) :
  mu c = false ->
  items c !! k = Some item ->
  live item now ->
  Add k x d now now' c = Ok (Some (KeyExists k)) (with_mu true c) [].
Proof.
  intros Hmu Hk Hlive. apply live_test in Hlive.
  open_cache c de m f j. unfold_op. rewrite Hk, Hlive. reflexivity.
Qed.

Lemma Add_absent (c : cache) (k : string) (x : Object) (d now now' : Z) :
  mu c = false ->
  items c !! k = None ->
  Add k x d now now' c =
    Ok None (with_items (<[k := mkItem x (resolved c d now')]> (items c)) c) [].
Proof.
  intros Hmu Hk.
  open_cache c de m f j. unfold_op. rewrite Hk. reflexivity.
Qed.

Lemma Add_expired (c : cache) (k : string) (x : Object) (d now now' : Z)
  (item : Item) :
  mu c = false ->
  items c !! k = Some item ->
  past_deadline item now ->
  Add k x d now now' c =
    Ok None (with_items (<[k := mkItem x (resolved c d now')]> (items c)) c) [].
Proof.
  intros Hmu Hk Hpast. apply past_deadline_test in Hpast.
  open_cache c de m f j. unfold_op. rewrite Hk, Hpast. reflexivity.
Qed.

(** Every operation starts by taking the mutex, so none returns on a cache
    whose mutex is held. *)
Lemma held_mutex_blocks (c : cache) :
  mu c = true ->
  (forall k x d now, Set_ k x d now c = Blocked) /\
  (forall k x d now now', Add k x d now now' c = Blocked) /\
  (forall k x d now now', Replace k x d now now' c = Blocked) /\
  (forall k n now, Increment k n now c = Blocked) /\
  (forall k now, Get k now c = Blocked) /\
  (forall k, Delete k c = Blocked) /\
  (forall now order, DeleteExpired now order c = Blocked) /\
  ItemCount c = Blocked /\
  Flush c = Blocked.
Proof.
  intros Hmu. destruct c as [de m b f j]; simpl in Hmu; subst b.
  repeat split; intros; reflexivity.
Qed.

(** [Add] on a cache whose mutex is free: the error is returned exactly
    for a key that holds a live item; otherwise the value is stored with the
    timestamp [Set] would give it. *)
Lemma Add_from_free_mutex (c : cache) (k : string) (x : Object)
  (d now now' : Z) :
  mu c = false ->
  (returned (Add k x d now now' c) = Some (Some (KeyExists k)) <->
   exists item, items c !! k = Some item /\ live item now) /\
  ((items c !! k = None \/
    exists item, items c !! k = Some item /\ past_deadline item now) ->
   Add k x d now now' c =
     Ok None
        (with_items (<[k := mkItem x (resolved c d now')]> (items c)) c) []).
Proof.
  intros Hmu.
  assert (Hins :
    (items c !! k = None \/
     exists item, items c !! k = Some item /\ past_deadline item now) ->
    Add k x d now now' c =
      Ok None
         (with_items (<[k := mkItem x (resolved c d now')]> (items c)) c) []).
  { intros [Hk | (item & Hk & Hp)].
    - apply Add_absent; assumption.
    - apply (Add_expired _ _ _ _ _ _ item); assumption. }
  split; [|exact Hins]. split.
  - intros Hret. destruct (items c !! k) as [item|] eqn:Hk.
    + destruct (decide (past_deadline item now)) as [Hp|Hl].
      * rewrite Hins in Hret by (right; exists item; split; auto).
        discriminate Hret.
      * exists item. split; [reflexivity | exact Hl].
    + rewrite Hins in Hret by (left; reflexivity). discriminate Hret.
  - intros (item & Hk & Hl).
    rewrite (Add_live _ _ _ _ _ _ item Hmu Hk Hl). reflexivity.
Qed.

(** C3. [Add] should fail with [KeyExists] exactly when the key holds a
    live item, and insert otherwise, on every cache.  From a cache whose
    mutex is free it does ([Add_live], [Add_absent], [Add_expired]), but the
    failing call returns without [Unlock]: after [Add] has failed once on
    "a", an [Add] on the absent key "b" does not insert and does not
    return.  [Replace], which has its own failing path, releases the mutex
    there. *)
Theorem Add_after_KeyExists_never_returns :
  let c0 := fst (New 0 0) in
  let c1 := cache_after (Add "a" (OInt 1) DefaultExpiration 100 100 c0) c0 in
  let c2 := cache_after (Add "a" (OInt 2) DefaultExpiration 200 200 c1) c1 in
  Add "a" (OInt 1) DefaultExpiration 100 100 c0 = Ok None c1 [] /\
  items c1 !! "a" = Some (mkItem (OInt 1) 0) /\
  Add "a" (OInt 2) DefaultExpiration 200 200 c1 =
    Ok (Some (KeyExists "a")) c2 [] /\
  mu c2 = true /\
  items c2 !! "b" = None /\
  Add "b" (OInt 3) DefaultExpiration 300 300 c2 = Blocked /\
  Replace "b" (OInt 3) DefaultExpiration 200 200 c1 =
    Ok (Some (KeyNotFound_Replace "b")) c1 [] /\
  mu c1 = false.
Proof. vm_compute. repeat split; reflexivity. Qed.

(** ** Replace *)

Lemma Replace_live (c : cache) (k : string) (x : Object) (d now now' : Z)
  (item : Item) :
  mu c = false ->
  items c !! k = Some item ->
  live item now ->
  Replace k x d now now' c =
    Ok None (with_items (<[k := mkItem x (resolved c d now')]> (items c)) c) [].
Proof.
  intros Hmu Hk Hlive. apply live_test in Hlive.
  open_cache c de m f j. unfold_op. rewrite Hk, Hlive. reflexivity.
Qed.

Lemma Replace_absent (c : cache) (k : string) (x : Object) (d now now' : Z) :
  mu c = false ->
  items c !! k = None ->
  Replace k x d now now' c = Ok (Some (KeyNotFound_Replace k)) c [].
Proof.
  intros Hmu Hk.
  open_cache c de m f j. unfold_op. rewrite Hk. reflexivity.
Qed.

Lemma Replace_expired (c : cache) (k : string) (x : Object) (d now now' : Z)
  (item : Item) :
  mu c = false ->
  items c !! k = Some item ->
  past_deadline item now ->
  Replace k x d now now' c = Ok (Some (KeyNotFound_Replace k)) c [].
Proof.
  intros Hmu Hk Hpast. apply past_deadline_test in Hpast.
  open_cache c de m f j. unfold_op. rewrite Hk, Hpast. reflexivity.
Qed.

(** C4. On a cache whose mutex is free, [Replace] returns the
    [KeyNotFound] error exactly when the key is absent or the deadline of
    its item has passed, and then changes nothing; when the key holds a live
    item, it stores the new value with the timestamp that [Set] would give
    it, and returns nil.  On a timestamp that is not negative, a passed
    deadline is what [Expired] reports. *)
Theorem Replace_KeyNotFound_iff (c : cache) (k : string) (x : Object)
  (d now now' : Z) :
  mu c = false ->
  (returned (Replace k x d now now' c) = Some (Some (KeyNotFound_Replace k))
   <-> (items c !! k = None \/
        exists item, items c !! k = Some item /\ past_deadline item now)) /\
  (returned (Replace k x d now now' c) = Some (Some (KeyNotFound_Replace k))
   -> Replace k x d now now' c = Ok (Some (KeyNotFound_Replace k)) c []) /\
  (forall item,
     items c !! k = Some item -> live item now ->
     Replace k x d now now' c =
       Ok None
          (with_items (<[k := mkItem x (resolved c d now')]> (items c)) c) []
     /\ cache_after (Replace k x d now now' c) c =
        cache_after (Set_ k x d now' c) c) /\
  (forall item,
     0 <= Expiration item ->
     (past_deadline item now <-> Expired item now = true) /\
     (live item now <-> Expired item now = false)).
Proof.
  intros Hmu.
  assert (Hcases :
    (items c !! k = None \/
     exists item, items c !! k = Some item /\ past_deadline item now) \/
    (exists item, items c !! k = Some item /\ live item now)).
  { destruct (items c !! k) as [item|] eqn:Hk; [|left; left; reflexivity].
    destruct (decide (past_deadline item now)) as [Hp|Hl].
    - left. right. exists item. split; [reflexivity | exact Hp].
    - right. exists item. split; [reflexivity | exact Hl]. }
  assert (Hfail :
    (items c !! k = None \/
     exists item, items c !! k = Some item /\ past_deadline item now) ->
    Replace k x d now now' c = Ok (Some (KeyNotFound_Replace k)) c []).
  { intros [Hk | (item & Hk & Hp)].
    - apply Replace_absent; assumption.
    - apply (Replace_expired _ _ _ _ _ _ item); assumption. }
  split; [|split; [|split]]; cycle 3.
  { intros item Hnn. pose proof (Expired_past_deadline item now Hnn) as HE.
    split; [symmetry; exact HE|].
    unfold live. rewrite <- HE. destruct (Expired item now); split.
    - intros H. exfalso. apply H. reflexivity.
    - discriminate.
    - reflexivity.
    - discriminate. }
  - split; [|intros H; rewrite (Hfail H); reflexivity].
    intros Hret. destruct Hcases as [H | (item & Hk & Hl)]; [exact H|].
    rewrite (Replace_live _ _ _ _ _ _ item Hmu Hk Hl) in Hret.
    discriminate Hret.
  - intros Hret. destruct Hcases as [H | (item & Hk & Hl)]; [auto|].
    rewrite (Replace_live _ _ _ _ _ _ item Hmu Hk Hl) in Hret.
    discriminate Hret.
  - intros item Hk Hl.
    rewrite (Replace_live _ _ _ _ _ _ item Hmu Hk Hl).
    rewrite Set_run by exact Hmu. split; reflexivity.
Qed.

Lemma Replace_KeyNotFound_iff_witness :
  let c := cache_after (Set_ "foo" (OString "bar") (10 * minute) 1000
                          (fst (New 0 0))) (fst (New 0 0)) in
  mu c = false /\
  Replace "foo" (OString "change") DefaultExpiration 2000 2001 c =
    Ok None
       (with_items (<["foo" := mkItem (OString "change") 0]> (items c)) c) [].
Proof.
  split; [reflexivity|].
  refine (proj1 (proj1 (proj2 (proj2
    (Replace_KeyNotFound_iff
       (cache_after (Set_ "foo" (OString "bar") (10 * minute) 1000
                       (fst (New 0 0))) (fst (New 0 0)))
       "foo" (OString "change") DefaultExpiration
       2000 2001 eq_refl))) (mkItem (OString "bar") (1000 + 10 * minute))
       eq_refl _)).
  unfold live, past_deadline, minute, second, nanosecond. simpl. lia.
Defined.

(** ** Increment *)

Lemma add_int_exact (a b : Z) :
  min_int64 <= a + b <= max_int64 -> add_int a b = a + b.
Proof. apply wrap64_id. Qed.

(** C5, as the claim has it, fails when [value + n] does not fit in an
    [int]: on a live item that holds the largest [int], [Increment] by 1
    returns nil and stores the smallest [int], not [value + 1]. *)
Lemma Increment_overflow_wraps :
  let item := mkItem (OInt max_int64) 0 in
  let c := mkCache (-1) {["num" := item]} false None None in
  let c1 := cache_after (Increment "num" 1 1000 c) c in
  items c !! "num" = Some item /\
  Expired item 1000 = false /\
  Increment "num" 1 1000 c = Ok None c1 [] /\
  items c1 !! "num" = Some (mkItem (OInt min_int64) 0) /\
  items c1 !! "num" <> Some (mkItem (OInt (max_int64 + 1)) 0).
Proof.
  vm_compute. repeat split; try reflexivity; discriminate.
Qed.

(** C5, amended.  On a cache whose mutex is free, [Increment] returns the
    [KeyNotFound] error when the key is absent or its item has expired;
    returns the [UnsupportedType] error, changing nothing, when the live
    item does not hold an [int]; and when it holds the [int] [i] and [i + n]
    is an [int], stores [i + n] under the timestamp the item had, leaving
    every other key as it was, and returns nil. *)
Theorem Increment_cases (c : cache) (k : string) (n now : Z) :
  mu c = false ->
  (items c !! k = None ->
     Increment k n now c = Ok (Some KeyNotFound_Increment) c []) /\
  (forall item,
     items c !! k = Some item -> Expired item now = true ->
     Increment k n now c = Ok (Some KeyNotFound_Increment) c []) /\
  (forall item,
     items c !! k = Some item -> Expired item now = false ->
     (forall i, Object_of item <> OInt i) ->
     Increment k n now c = Ok (Some UnsupportedType) c []) /\
  (forall item i,
     items c !! k = Some item -> Expired item now = false ->
     Object_of item = OInt i ->
     min_int64 <= i + n <= max_int64 ->
     Increment k n now c =
       Ok None
          (with_items
             (<[k := mkItem (OInt (i + n)) (Expiration item)]> (items c)) c)
          [] /\
     (let c' := cache_after (Increment k n now c) c in
      items c' !! k = Some (mkItem (OInt (i + n)) (Expiration item)) /\
      (forall k', k' <> k -> items c' !! k' = items c !! k') /\
      mu c' = false)).
Proof.
  intros Hmu. open_cache c de m f j.
  split; [|split; [|split]].
  - intros Hk. unfold_op. rewrite Hk. reflexivity.
  - intros item Hk He. unfold_op. rewrite Hk, He. reflexivity.
  - intros item Hk He Hty. unfold_op. rewrite Hk, He.
    destruct (Object_of item) as [|i| | | |] eqn:Ho; try reflexivity.
    exfalso. apply (Hty i). reflexivity.
  - intros item i Hk He Ho Hr.
    assert (Hrun :
      Increment k n now (mkCache de m false f j) =
        Ok None
           (mkCache de (<[k := mkItem (OInt (i + n)) (Expiration item)]> m)
              false f j) []).
    { unfold_op. rewrite Hk, He, Ho. unfold add_int.
      rewrite wrap64_id by exact Hr. reflexivity. }
    rewrite Hrun. split; [reflexivity|]. cbn [cache_after items mu].
    split; [apply lookup_insert_eq|].
    split; [intros k' Hne; apply lookup_insert_ne; congruence | reflexivity].
Qed.

Lemma Increment_cases_witness :
  let c := cache_after (Set_ "num" (OInt 10) (10 * minute) 1000
                          (fst (New 0 0))) (fst (New 0 0)) in
  mu c = false /\
  min_int64 <= 10 + 1 <= max_int64 /\
  Increment "num" 1 2000 c =
    Ok None
       (with_items
          (<["num" := mkItem (OInt 11) (1000 + 10 * minute)]> (items c)) c) [].
Proof.
  assert (Hr : min_int64 <= 10 + 1 <= max_int64)
    by (vm_compute; split; discriminate).
  split; [reflexivity|]. split; [exact Hr|].
  exact (proj1 (proj2 (proj2 (proj2
    (Increment_cases
       (cache_after (Set_ "num" (OInt 10) (10 * minute) 1000
                       (fst (New 0 0))) (fst (New 0 0)))
       "num" 1 2000 eq_refl)))
    (mkItem (OInt 10) (1000 + 10 * minute)) 10 eq_refl eq_refl eq_refl Hr)).
Defined.

(** ** Delete *)

Lemma Delete_run (c : cache) (k : string) :
  mu c = false ->
  Delete k c =
    Ok tt (with_items (delete k (items c)) c)
       match onEvicted c, items c !! k with
       | Some f, Some item =>
           [mkCall f k (Object_of item) (delete k (items c)) false]
       | _, _ => []
       end.
Proof.
  intros Hmu. open_cache c de m f j. unfold_op.
  destruct f as [f|]; [destruct (m !! k) as [item|]|]; reflexivity.
Qed.

(** C6. With an eviction callback set, [Delete] of a key that holds an
    item removes the item and calls the callback once, with the key and the
    value the item held; the callee finds the item gone and the mutex free.
    [Delete] of an absent key changes nothing and calls nothing.  [Delete]
    returns in both cases, and has no error to return. *)
Theorem Delete_calls_onEvicted_once (c : cache) (k : string) (f : handler) :
  mu c = false ->
  onEvicted c = Some f ->
  (forall item,
     items c !! k = Some item ->
     Delete k c =
       Ok tt (with_items (delete k (items c)) c)
          [mkCall f k (Object_of item) (delete k (items c)) false]
     /\ items (cache_after (Delete k c) c) !! k = None) /\
  (items c !! k = None -> Delete k c = Ok tt c []).
Proof.
  intros Hmu Hf. rewrite Delete_run by exact Hmu. rewrite Hf.
  split.
  - intros item Hk. rewrite Hk. split; [reflexivity|].
    simpl. destruct c; simpl. apply lookup_delete_eq.
  - intros Hk. rewrite Hk. rewrite delete_id by exact Hk.
    rewrite with_items_id. reflexivity.
Qed.

Lemma Delete_calls_onEvicted_once_witness :
  let c := mkCache (-1) {["foo" := mkItem (OString "bar") 0]} false
             (Some (Handler 0)) None in
  mu c = false /\ onEvicted c = Some (Handler 0) /\
  Delete "foo" c =
    Ok tt (with_items (delete "foo" (items c)) c)
       [mkCall (Handler 0) "foo" (OString "bar") (delete "foo" (items c)) false].
Proof.
  split; [reflexivity|]. split; [reflexivity|].
  exact (proj1 (proj1
    (Delete_calls_onEvicted_once
       (mkCache (-1) {["foo" := mkItem (OString "bar") 0]} false
          (Some (Handler 0)) None) "foo" (Handler 0) eq_refl eq_refl)
    (mkItem (OString "bar") 0) eq_refl)).
Defined.

(** C10. With no eviction callback, [Delete] of a key that holds an item
    removes the item and returns: it does not panic, and it calls
    nothing. *)
Theorem Delete_without_callback (c : cache) (k : string) (item : Item) :
  mu c = false ->
  onEvicted c = None ->
  items c !! k = Some item ->
  Delete k c = Ok tt (with_items (delete k (items c)) c) [] /\
  items (cache_after (Delete k c) c) !! k = None /\
  Delete k c <> Panic.
Proof.
  intros Hmu Hf Hk. rewrite Delete_run by exact Hmu. rewrite Hf.
  split; [reflexivity|]. split; [|discriminate].
  simpl. destruct c; simpl. apply lookup_delete_eq.
Qed.

Lemma Delete_without_callback_witness :
  let c := mkCache (-1) {["foo" := mkItem (OString "bar") 0]} false
             None None in
  mu c = false /\ onEvicted c = None /\
  items c !! "foo" = Some (mkItem (OString "bar") 0) /\
  Delete "foo" c = Ok tt (with_items (delete "foo" (items c)) c) [].
Proof.
  split; [reflexivity|]. split; [reflexivity|]. split; [reflexivity|].
  exact (proj1
    (Delete_without_callback
       (mkCache (-1) {["foo" := mkItem (OString "bar") 0]} false None None)
       "foo" (mkItem (OString "bar") 0) eq_refl eq_refl eq_refl)).
Defined.

(** ** ItemCount and Flush *)

Lemma ItemCount_run (c : cache) :
  mu c = false -> ItemCount c = Ok (Z.of_nat (size (items c))) c [].
Proof. intros Hmu. open_cache c de m f j. reflexivity. Qed.

(** C8. On a cache whose mutex is free, [Flush] leaves no item,
    [ItemCount] is 0 after it, and it calls nothing, whatever the cache
    held and whether or not a callback is set. *)
Theorem Flush_empties_silently (c : cache) :
  mu c = false ->
  Flush c = Ok tt (with_items ∅ c) [] /\
  ItemCount (cache_after (Flush c) c) = Ok 0 (with_items ∅ c) [].
Proof.
  intros Hmu. open_cache c de m f j. split; reflexivity.
Qed.

Lemma Flush_empties_silently_witness :
  let c := mkCache (-1) {["foo" := mkItem (OString "bar") 5]} false
             (Some (Handler 0)) None in
  mu c = false /\ Flush c = Ok tt (with_items ∅ c) [].
Proof.
  split; [reflexivity|].
  exact (proj1
    (Flush_empties_silently
       (mkCache (-1) {["foo" := mkItem (OString "bar") 5]} false
          (Some (Handler 0)) None) eq_refl)).
Defined.

(** ** DeleteExpired *)

Section Sweep.

(** The clock reading that [DeleteExpired] takes before it starts. *)
Variable timeNow : Z.

Lemma DeleteExpired_body_run (c : cache) (acc : list kv)
  (k : string) :
  DeleteExpired_body timeNow acc k c =
    match items c !! k with
    | Some v =>
        if decide (past_deadline v timeNow) then
          Ok (match onEvicted c with
              | Some _ => acc ++ [mkKv k (Object_of v)]
              | None => acc
              end)
             (with_items (delete k (items c)) c) []
        else Ok acc c []
    | None => Ok acc c []
    end.
Proof.
  destruct c as [de m b f j]. unfold DeleteExpired_body. unfold_op.
  destruct (m !! k) as [v|] eqn:Hk; [|reflexivity].
  destruct (decide (past_deadline v timeNow)) as [Hp|Hl].
  - apply past_deadline_test in Hp. rewrite Hp.
    destruct f; simpl; rewrite ?Hk; reflexivity.
  - apply live_test in Hl. rewrite Hl. reflexivity.
Qed.

Lemma evicted_of_cons (m : gmap string Item) (k : string)
  (rest : list string) :
  evicted_of m timeNow (k :: rest) =
    match evicted_at m timeNow k with
    | Some e => e :: evicted_of m timeNow rest
    | None => evicted_of m timeNow rest
    end.
Proof. reflexivity. Qed.

Lemma evicted_of_delete (m : gmap string Item) (k : string)
  (rest : list string) :
  k ∉ rest ->
  evicted_of (delete k m) timeNow rest = evicted_of m timeNow rest.
Proof.
  induction rest as [|k' rest IH]; intros Hk; [reflexivity|].
  apply not_elem_of_cons in Hk as [Hne Hk].
  rewrite !evicted_of_cons, IH by exact Hk.
  unfold evicted_at. rewrite lookup_delete_ne by exact Hne. reflexivity.
Qed.

(** The loop of the sweep, on any cache: it removes the visited items whose
    deadline has passed and collects them in the order of the visit. *)
Lemma DeleteExpired_range_run (order : list string) :
  NoDup order ->
  forall (c : cache) (acc : list kv),
  DeleteExpired_range timeNow order acc c =
    Ok (acc ++ match onEvicted c with
               | Some _ => evicted_of (items c) timeNow order
               | None => []
               end)
       (with_items (filter (stays timeNow order) (items c)) c) [].
Proof.
  induction 1 as [|k rest Hk Hnd IH]; intros c acc.
  - simpl. unfold ret.
    rewrite map_filter_id, with_items_id.
    + destruct (onEvicted c); rewrite app_nil_r; reflexivity.
    + intros i x _ [Hin _]. simpl in Hin. inversion Hin.
  - cbn [DeleteExpired_range]. unfold bind. rewrite DeleteExpired_body_run.
    rewrite evicted_of_cons. unfold evicted_at.
    destruct (items c !! k) as [v|] eqn:Hv.
    + destruct (decide (past_deadline v timeNow)) as [Hp|Hl].
      * rewrite IH. destruct c as [de m b f j]. unfold with_items.
        cbn [items onEvicted defaultExpiration mu janitor_of app] in *.
        rewrite evicted_of_delete by exact Hk.
        f_equal.
        -- destruct f; [rewrite <- app_assoc|]; reflexivity.
        -- f_equal. apply map_filter_strong_ext_1. intros i x.
           unfold stays; simpl. rewrite lookup_delete_Some.
           rewrite elem_of_cons. split.
           ++ intros [Hs [Hne Hx]]. split; [|exact Hx].
              intros [[Heq|Hin] Hpx]; [congruence|]. apply Hs. split; assumption.
           ++ intros [Hs Hx]. destruct (decide (k = i)) as [->|Hne].
              ** exfalso. apply Hs. rewrite Hv in Hx. inversion Hx; subst.
                 split; [left; reflexivity | exact Hp].
              ** split; [|split; assumption].
                 intros [Hin Hpx]. apply Hs. split; [right; exact Hin|exact Hpx].
      * rewrite IH. cbn [app]. f_equal. f_equal.
        apply map_filter_ext. intros i x Hx. unfold stays; simpl.
        rewrite elem_of_cons. split.
        -- intros Hs [[->|Hin] Hpx]; [|apply Hs; split; assumption].
           rewrite Hv in Hx. inversion Hx; subst. contradiction.
        -- intros Hs [Hin Hpx]. apply Hs. split; [right; exact Hin|exact Hpx].
    + rewrite IH. cbn [app]. f_equal. f_equal.
      apply map_filter_ext. intros i x Hx. unfold stays; simpl.
      rewrite elem_of_cons. split.
      * intros Hs [[->|Hin] Hpx]; [congruence|apply Hs; split; assumption].
      * intros Hs [Hin Hpx]. apply Hs. split; [right; exact Hin|exact Hpx].
Qed.

Lemma DeleteExpired_notify_run (c : cache) (f : handler)
  (evictedItems : list kv) :
  onEvicted c = Some f ->
  DeleteExpired_notify evictedItems c =
    Ok tt c
       ((fun e => mkCall f (key e) (value e) (items c) (mu c))
          <$> evictedItems).
Proof.
  intros Hf. induction evictedItems as [|e rest IH]; [reflexivity|].
  cbn [DeleteExpired_notify]. unfold bind, call_onEvicted.
  rewrite Hf, IH. reflexivity.
Qed.

(** The whole sweep, for any visit of distinct keys. *)
Lemma DeleteExpired_run (c : cache) (order : list string) :
  mu c = false ->
  NoDup order ->
  DeleteExpired timeNow order c =
    Ok tt (with_items (filter (stays timeNow order) (items c)) c)
       match onEvicted c with
       | Some f =>
           (fun e => mkCall f (key e) (value e)
                       (filter (stays timeNow order) (items c)) false)
             <$> evicted_of (items c) timeNow order
       | None => []
       end.
Proof.
  intros Hmu Hnd. unfold DeleteExpired, bind at 1. unfold Lock. rewrite Hmu.
  unfold bind at 1. rewrite DeleteExpired_range_run by exact Hnd.
  destruct c as [de m b f j]. unfold with_items, with_mu.
  cbn [items onEvicted defaultExpiration mu janitor_of app] in *.
  unfold bind, Unlock.
  cbn [items onEvicted defaultExpiration mu janitor_of app].
  subst b. destruct f as [f|].
  - rewrite (DeleteExpired_notify_run _ f) by reflexivity. reflexivity.
  - reflexivity.
Qed.

Lemma range_order_NoDup (m : gmap string Item) (order : list string) :
  range_order m order -> NoDup order.
Proof.
  unfold range_order. intros ->. apply NoDup_fst_map_to_list.
Qed.

Lemma range_order_visits (m : gmap string Item) (order : list string)
  (k : string) (item : Item) :
  range_order m order -> m !! k = Some item -> k ∈ order.
Proof.
  unfold range_order. intros -> Hk.
  apply list_elem_of_fmap. exists (k, item). split; [reflexivity|].
  apply elem_of_map_to_list. exact Hk.
Qed.

Lemma range_order_stays (m : gmap string Item) (order : list string) :
  range_order m order ->
  filter (stays timeNow order) m = filter (live_entry timeNow) m.
Proof.
  intros Hord. apply map_filter_ext. intros k item Hk.
  unfold stays, live_entry, live. simpl.
  pose proof (range_order_visits m order k item Hord Hk). tauto.
Qed.

Lemma elem_of_evicted_of (m : gmap string Item)
  (order : list string) (e : kv) :
  e ∈ evicted_of m timeNow order <->
  key e ∈ order /\
  exists item, m !! key e = Some item /\ past_deadline item timeNow /\
               value e = Object_of item.
Proof.
  unfold evicted_of. rewrite list_elem_of_omap. unfold evicted_at. split.
  - intros (k & Hin & He). destruct (m !! k) as [item|] eqn:Hk; [|discriminate].
    destruct (decide (past_deadline item timeNow)); [|discriminate].
    inversion He; subst; simpl. split; [exact Hin|].
    exists item. split; [exact Hk|]. split; [assumption|reflexivity].
  - intros (Hin & item & Hk & Hp & Hv). exists (key e). split; [exact Hin|].
    rewrite Hk. rewrite decide_True by exact Hp.
    destruct e as [k v]; simpl in *. subst v. reflexivity.
Qed.

Lemma NoDup_evicted_keys (m : gmap string Item)
  (order : list string) :
  NoDup order -> NoDup (key <$> evicted_of m timeNow order).
Proof.
  induction 1 as [|k rest Hk Hnd IH]; [constructor|].
  rewrite evicted_of_cons.
  destruct (evicted_at m timeNow k) as [e|] eqn:He; [|exact IH].
  rewrite fmap_cons. constructor; [|exact IH].
  assert (key e = k) as ->.
  { unfold evicted_at in He. destruct (m !! k); [|discriminate].
    destruct (decide _); [|discriminate]. inversion He. reflexivity. }
  rewrite list_elem_of_fmap. intros (e' & Hke & Hin).
  apply elem_of_evicted_of in Hin as [Hin _]. rewrite <- Hke in Hin.
  contradiction.
Qed.

(** The items a sweep collects are the entries whose deadline has passed,
    each one once. *)
Lemma evicted_of_Permutation (m : gmap string Item)
  (order : list string) :
  range_order m order ->
  (fun e => (key e, value e)) <$> evicted_of m timeNow order ≡ₚ
  map_to_list (Object_of <$> filter (dead_entry timeNow) m).
Proof.
  intros Hord. apply NoDup_Permutation.
  - apply (NoDup_fmap_1 fst). rewrite <- list_fmap_compose.
    apply (NoDup_evicted_keys m order).
    apply (range_order_NoDup m). exact Hord.
  - apply NoDup_map_to_list.
  - intros [k v]. rewrite elem_of_map_to_list, lookup_fmap.
    rewrite list_elem_of_fmap. split.
    + intros (e & Heq & Hin). inversion Heq; subst.
      apply elem_of_evicted_of in Hin as (_ & item & Hk & Hp & Hv).
      rewrite (map_lookup_filter_Some_2 _ _ _ item Hk Hp). simpl.
      rewrite Hv. reflexivity.
    + intros Hk.
      destruct (filter (dead_entry timeNow) m !! k) as [item|] eqn:Hf;
        [|discriminate].
      simpl in Hk. inversion Hk; subst.
      apply map_lookup_filter_Some in Hf as [Hm Hp].
      exists (mkKv k (Object_of item)). split; [reflexivity|].
      apply elem_of_evicted_of. simpl. split.
      * apply (range_order_visits m order k item); assumption.
      * exists item. split; [exact Hm|]. split; [exact Hp|reflexivity].
Qed.

Lemma evicted_of_all_live (m : gmap string Item)
  (order : list string) :
  (forall k item, m !! k = Some item -> live item timeNow) ->
  evicted_of m timeNow order = [].
Proof.
  intros Hlive. apply elem_of_nil_inv. intros e He.
  apply elem_of_evicted_of in He as (_ & item & Hk & Hp & _).
  exact (Hlive _ _ Hk Hp).
Qed.

End Sweep.

(** C7. A sweep, on a cache whose mutex is free, is decided by the one
    clock reading [timeNow]: the items left are exactly the live ones (0,
    never, included), so those removed are exactly the ones whose positive
    timestamp lies before [timeNow].  With a callback set, the calls made
    are one per removed entry, with its key and value, and each callee finds
    every removal done and the mutex free; with none set, nothing is called.
    When every item is live, the cache is left as it was (so [ItemCount] is
    unchanged) and nothing is called. *)
Theorem DeleteExpired_sweep (c : cache) (timeNow : Z) (order : list string) :
  mu c = false ->
  range_order (items c) order ->
  let m' := filter (live_entry timeNow) (items c) in
  exists calls,
    DeleteExpired timeNow order c = Ok tt (with_items m' c) calls /\
    (forall k item,
       m' !! k = Some item <->
       items c !! k = Some item /\ live item timeNow) /\
    (forall k,
       m' !! k = None <->
       items c !! k = None \/
       exists item, items c !! k = Some item /\ 0 < Expiration item < timeNow)
    /\
    (onEvicted c = None -> calls = []) /\
    (forall f,
       onEvicted c = Some f ->
       (fun cl => (call_key cl, call_value cl)) <$> calls ≡ₚ
         map_to_list (Object_of <$> filter (dead_entry timeNow) (items c)) /\
       Forall (fun cl => call_fn cl = f /\ call_items cl = m' /\
                         call_locked cl = false) calls) /\
    ((forall k item, items c !! k = Some item -> live item timeNow) ->
       DeleteExpired timeNow order c = Ok tt c []).
Proof.
  intros Hmu Hord m'.
  rewrite (DeleteExpired_run timeNow c order Hmu (range_order_NoDup _ _ Hord)).
  rewrite (range_order_stays timeNow _ _ Hord). fold m'.
  eexists. split; [reflexivity|].
  split; [|split; [|split; [|split]]].
  - intros k item. unfold m'. rewrite map_lookup_filter_Some. reflexivity.
  - intros k. unfold m'. rewrite map_lookup_filter_None.
    unfold live_entry, live, past_deadline. simpl. split.
    + intros [Hk | Hk]; [left; exact Hk|].
      destruct (items c !! k) as [item|] eqn:Hi; [|left; reflexivity].
      right. exists item. split; [reflexivity|].
      specialize (Hk item eq_refl). lia.
    + intros [Hk | (item & Hk & Hp)]; [left; exact Hk|].
      right. intros x Hx. rewrite Hk in Hx. inversion Hx; subst. lia.
  - intros ->. reflexivity.
  - intros f ->. split.
    + rewrite <- list_fmap_compose.
      apply (evicted_of_Permutation timeNow (items c) order Hord).
    + apply Forall_fmap. apply Forall_forall. intros e _. simpl. auto.
  - intros Hlive. rewrite evicted_of_all_live by exact Hlive.
    unfold m'. rewrite map_filter_id by exact Hlive.
    rewrite with_items_id. destruct (onEvicted c); reflexivity.
Qed.

Lemma DeleteExpired_sweep_witness :
  let m : gmap string Item :=
    {["old" := mkItem (OInt 1) 5; "kept" := mkItem (OInt 2) 0]} in
  let c := mkCache (-1) m false (Some (Handler 0)) None in
  mu c = false /\
  range_order (items c) ["old"; "kept"] /\
  exists calls,
    DeleteExpired 10 ["old"; "kept"] c =
      Ok tt (with_items (filter (live_entry 10) (items c)) c) calls /\
    (fun cl => (call_key cl, call_value cl)) <$> calls ≡ₚ
      map_to_list (Object_of <$> filter (dead_entry 10) (items c)).
Proof.
  intros m c.
  assert (Hord : range_order (items c) ["old"; "kept"]).
  { unfold range_order. vm_compute. reflexivity. }
  split; [reflexivity|]. split; [exact Hord|].
  destruct (DeleteExpired_sweep c 10 ["old"; "kept"] eq_refl Hord)
    as (calls & Hrun & _ & _ & _ & Hcalls & _).
  exists calls. split; [exact Hrun|].
  exact (proj1 (Hcalls (Handler 0) eq_refl)).
Defined.

(** ** Construction and the janitor *)

Lemma New_run (de ci : Z) :
  New de ci =
    if ci >? 0 then
      (mkCache (if de =? 0 then -1 else de) ∅ false None
         (Some (mkJanitor ci)),
       mkRuntime [GoRun (mkJanitor ci)] true)
    else
      (mkCache (if de =? 0 then -1 else de) ∅ false None None,
       mkRuntime [] false).
Proof.
  unfold New, newCacheWithJanitor, runJanitor, newCache.
  destruct (ci >? 0); reflexivity.
Qed.

(** The calls other than [Delete], [DeleteExpired] and [Flush] keep every
    key of the cache. *)
Lemma key_kept (o : op) (c c' : cache) (k : string) (item : Item) :
  is_deletion o = false ->
  o <> OpFlush ->
  exec o c = Some c' ->
  items c !! k = Some item ->
  is_Some (items c' !! k).
Proof.
  intros Hdel Hflush Hexec Hk.
  destruct c as [de m b f j]; simpl in Hk.
  destruct o as [k0 x d now|k0 x d now now'|k0 x d now now'|k0 n now|k0 now
                |k0|timeNow order| |];
    try discriminate Hdel; try congruence;
    unfold exec in Hexec; destruct b; try discriminate Hexec;
    revert Hexec; unfold_op.
  - intros [= <-]. simpl. destruct (decide (k0 = k)) as [->|Hne].
    + rewrite lookup_insert_eq. eauto.
    + rewrite lookup_insert_ne by exact Hne. eauto.
  - destruct (m !! k0) as [v|]; simpl;
      [destruct ((Expiration v >? 0) && (Expiration v <? now)); simpl|];
      intros [= <-]; simpl; try (rewrite Hk; eauto);
      (destruct (decide (k0 = k)) as [->|Hne];
       [rewrite lookup_insert_eq | rewrite lookup_insert_ne by exact Hne];
       eauto).
  - destruct (m !! k0) as [v|]; simpl;
      [destruct ((Expiration v >? 0) && (Expiration v <? now)); simpl|];
      intros [= <-]; simpl; try (rewrite Hk; eauto);
      (destruct (decide (k0 = k)) as [->|Hne];
       [rewrite lookup_insert_eq | rewrite lookup_insert_ne by exact Hne];
       eauto).
  - destruct (m !! k0) as [v|]; simpl;
      [destruct (Expired v now); simpl; [|destruct (Object_of v); simpl]|];
      intros [= <-]; simpl; try (rewrite Hk; eauto);
      (destruct (decide (k0 = k)) as [->|Hne];
       [rewrite lookup_insert_eq | rewrite lookup_insert_ne by exact Hne];
       eauto).
  - destruct (m !! k0) as [v|]; simpl;
      [destruct (Expiration v <? now); simpl|];
      intros [= <-]; simpl; rewrite Hk; eauto.
  - intros [= <-]. simpl. rewrite Hk. eauto.
Qed.

Lemma Run_positive_interval (j : janitor) (signals : list signal) :
  0 < Interval j -> Run j signals = Run_loop signals.
Proof.
  intros Hpos. unfold Run. destruct (Interval j <=? 0) eqn:E; [lia|].
  reflexivity.
Qed.

(** C9, as the claim has it, fails on [Flush]: on a cache built with
    cleanup interval 0, which has no janitor, the item stored under "a" with
    a duration of one nanosecond has expired at 2000, and [Flush], which is
    neither [Delete] nor [DeleteExpired], removes it. *)
Lemma Flush_removes_expired_item :
  let c0 := fst (New 0 0) in
  let c := cache_after (Set_ "a" (OInt 1) 1 1000 c0) c0 in
  janitor_of c = None /\
  items c !! "a" = Some (mkItem (OInt 1) 1001) /\
  Expired (mkItem (OInt 1) 1001) 2000 = true /\
  removes OpFlush c "a" /\
  is_deletion OpFlush = false /\
  ~ (forall (c : cache) (o : op) (k : string),
       janitor_of c = None -> removes o c k -> is_deletion o = true).
Proof.
  intros c0 c.
  assert (Hrem : removes OpFlush c "a").
  { exists (mkItem (OInt 1) 1001), (with_items ∅ c).
    repeat split; reflexivity. }
  repeat split; try reflexivity; try exact Hrem.
  intros H. specialize (H c OpFlush "a" eq_refl Hrem). discriminate H.
Qed.

(** C9, amended.  [New] sets the janitor and starts its goroutine exactly
    when the cleanup interval is positive; the janitor has that interval,
    its goroutine runs the sweep on every tick, and [stopJanitor] is
    registered as finalizer.  With an interval that is zero or negative the
    janitor stays nil and no goroutine is started.  On every cache, a call
    that removes a key is a [Delete], a [DeleteExpired] or a [Flush]. *)
Theorem New_janitor_iff_positive_interval (de ci : Z) :
  let c := fst (New de ci) in
  let rt := snd (New de ci) in
  (0 < ci ->
     janitor_of c = Some (mkJanitor ci) /\
     goroutines rt = [GoRun (mkJanitor ci)] /\
     finalizer rt = true /\
     forall now order rest,
       Run (mkJanitor ci) (Tick now order :: rest) =
         (do _ <- DeleteExpired now order; Run_loop rest)) /\
  (ci <= 0 ->
     janitor_of c = None /\ goroutines rt = [] /\ finalizer rt = false) /\
  (janitor_of c <> None <-> 0 < ci) /\
  (forall (c1 : cache) (o : op) (k : string),
     removes o c1 k -> is_deletion o = true \/ o = OpFlush).
Proof.
  intros c rt. subst c rt. rewrite New_run.
  split; [|split; [|split]].
  - intros Hpos. destruct (ci >? 0) eqn:E; [|lia]. simpl.
    repeat split. intros now order rest.
    rewrite Run_positive_interval by exact Hpos. reflexivity.
  - intros Hle. destruct (ci >? 0) eqn:E; [lia|]. simpl. repeat split.
  - destruct (ci >? 0) eqn:E; simpl.
    + split; [lia | discriminate].
    + split; [congruence | lia].
  - intros c1 o k (item & c' & Hk & Hexec & Hgone).
    destruct (is_deletion o) eqn:Hdel; [left; reflexivity|].
    assert (o = OpFlush \/ o <> OpFlush) as [Hf|Hf]
      by (destruct o; (left; reflexivity) || (right; discriminate)).
    { right; exact Hf. }
    destruct (key_kept o c1 c' k item Hdel Hf Hexec Hk) as [x Hx].
    congruence.
Qed.

Lemma New_janitor_iff_positive_interval_witness :
  0 < 30 * second /\
  janitor_of (fst (New (10 * minute) (30 * second))) =
    Some (mkJanitor (30 * second)) /\
  goroutines (snd (New (10 * minute) (30 * second))) =
    [GoRun (mkJanitor (30 * second))].
Proof.
  assert (Hpos : 0 < 30 * second) by (vm_compute; reflexivity).
  split; [exact Hpos|].
  destruct (proj1 (New_janitor_iff_positive_interval (10 * minute)
                     (30 * second)) Hpos) as (Hj & Hg & _).
  split; [exact Hj | exact Hg].
Defined.

(** ** The documented usage *)

Example usage_run :
  returned (usage (fst (New (10 * minute) (30 * second)))) =
    Some ([(OString "bar", true); (OInt 11, true); (OString "change", true);
           (ONil, false)], 3).
Proof. vm_compute. reflexivity. Qed.

(** ** Storing and reading back *)

Lemma resolved_duration (c : cache) (d now : Z) :
  resolved c d now =
    if duration_of c d >? 0 then wrap64 (now + duration_of c d) else 0.
Proof. reflexivity. Qed.

(** X1. An item stored by [Set] with a positive duration, the default one
    included, is returned by [Get] at every clock reading up to [now] plus
    the duration, and reported missing at every later one, provided the sum
    is an [int64]. *)
Theorem Set_then_Get (c : cache) (k : string) (x : Object) (d now now' : Z) :
  mu c = false ->
  0 < duration_of c d ->
  min_int64 <= now + duration_of c d <= max_int64 ->
  let c1 := cache_after (Set_ k x d now c) c in
  (now' <= now + duration_of c d -> Get k now' c1 = Ok (x, true) c1 []) /\
  (now + duration_of c d < now' -> Get k now' c1 = Ok (ONil, false) c1 []).
Proof.
  intros Hmu Hpos Hr c1. subst c1. rewrite Set_run by exact Hmu.
  cbn [cache_after]. rewrite Get_run by (destruct c; exact Hmu).
  replace (items (with_items (<[k:={| Object_of := x; Expiration := resolved c d now |}]> (items c)) c))
    with (<[k:={| Object_of := x; Expiration := resolved c d now |}]> (items c))
    by (destruct c; reflexivity).
  rewrite lookup_insert_eq. cbn [Expiration Object_of].
  rewrite resolved_duration.
  destruct (duration_of c d >? 0) eqn:E; [|lia].
  rewrite wrap64_id by exact Hr.
  destruct (now + duration_of c d <? now') eqn:E'.
  - apply Z.ltb_lt in E'. split; [lia | reflexivity].
  - apply Z.ltb_ge in E'. split; [reflexivity | lia].
Qed.

Lemma Set_then_Get_witness :
  let c := fst (New (10 * minute) 0) in
  let c1 := cache_after (Set_ "foo" (OString "bar") DefaultExpiration 1000 c) c in
  mu c = false /\
  0 < duration_of c DefaultExpiration /\
  Get "foo" (1000 + 10 * minute) c1 = Ok (OString "bar", true) c1 [].
Proof.
  split; [reflexivity|]. split; [reflexivity|].
  refine (proj1 (Set_then_Get (fst (New (10 * minute) 0)) "foo" (OString "bar")
            DefaultExpiration 1000 (1000 + 10 * minute) eq_refl eq_refl _) _).
  - vm_compute. split; discriminate.
  - vm_compute. discriminate.
Defined.

(** X2. A second [Set] on a key leaves the cache as if the first had not
    been made: the value and the deadline of the earlier item are both
    gone. *)
Theorem Set_last_write_wins (c : cache) (k : string) (x y : Object)
  (d d' now now' : Z) :
  mu c = false ->
  let c1 := cache_after (Set_ k x d now c) c in
  Set_ k y d' now' c1 = Set_ k y d' now' c /\
  items (cache_after (Set_ k y d' now' c1) c1) !! k =
    Some (mkItem y (resolved c d' now')).
Proof.
  intros Hmu c1. subst c1. open_cache c de m f j.
  unfold cache_after, resolved. unfold_op.
  rewrite insert_insert_eq. split; [reflexivity|].
  apply lookup_insert_eq.
Qed.

Lemma Set_last_write_wins_witness :
  let c := fst (New 0 0) in
  let c1 := cache_after (Set_ "foo" (OInt 1) (5 * second) 1000 c) c in
  mu c = false /\
  Set_ "foo" (OInt 2) NoExpiration 2000 c1 =
    Set_ "foo" (OInt 2) NoExpiration 2000 c.
Proof.
  split; [reflexivity|].
  exact (proj1 (Set_last_write_wins (fst (New 0 0)) "foo" (OInt 1) (OInt 2)
                  (5 * second) NoExpiration 1000 2000 eq_refl)).
Defined.

(** X3. A call that names a key leaves the items under every other key as
    they are. *)
Theorem other_keys_untouched (o : op) (c c' : cache) (k k' : string) :
  target o = Some k ->
  k' <> k ->
  exec o c = Some c' ->
  items c' !! k' = items c !! k'.
Proof.
  intros Ht Hne Hexec.
  destruct c as [de m b f j].
  destruct o as [k0 x d now|k0 x d now now'|k0 x d now now'|k0 n now|k0 now
                |k0|timeNow order| |];
    try discriminate Ht; injection Ht as ->;
    unfold exec in Hexec; destruct b; try discriminate Hexec;
    revert Hexec; unfold_op.
  - intros [= <-]. simpl. apply lookup_insert_ne. congruence.
  - destruct (m !! k) as [v|]; simpl;
      [destruct ((Expiration v >? 0) && (Expiration v <? now)); simpl|];
      intros [= <-]; simpl; try reflexivity;
      apply lookup_insert_ne; congruence.
  - destruct (m !! k) as [v|]; simpl;
      [destruct ((Expiration v >? 0) && (Expiration v <? now)); simpl|];
      intros [= <-]; simpl; try reflexivity;
      apply lookup_insert_ne; congruence.
  - destruct (m !! k) as [v|]; simpl;
      [destruct (Expired v now); simpl; [|destruct (Object_of v); simpl]|];
      intros [= <-]; simpl; try reflexivity;
      apply lookup_insert_ne; congruence.
  - destruct (m !! k) as [v|]; simpl;
      [destruct (Expiration v <? now); simpl|];
      intros [= <-]; reflexivity.
  - destruct f as [f|]; [destruct (m !! k) as [v|]|]; simpl;
      intros [= <-]; simpl; apply lookup_delete_ne; congruence.
Qed.

Lemma other_keys_untouched_witness :
  let c := mkCache (-1) {["a" := mkItem (OInt 1) 0]} false None None in
  let c' := with_items (<["b" := mkItem (OInt 2) 0]> (items c)) c in
  target (OpSet "b" (OInt 2) NoExpiration 5) = Some "b" /\
  "a" <> "b" /\
  exec (OpSet "b" (OInt 2) NoExpiration 5) c = Some c' /\
  items c' !! "a" = items c !! "a".
Proof.
  assert (Hne : "a" <> "b") by discriminate.
  split; [reflexivity|]. split; [exact Hne|]. split; [reflexivity|].
  exact (other_keys_untouched (OpSet "b" (OInt 2) NoExpiration 5)
           (mkCache (-1) {["a" := mkItem (OInt 1) 0]} false None None)
           (with_items (<["b" := mkItem (OInt 2) 0]> {["a" := mkItem (OInt 1) 0]})
              (mkCache (-1) {["a" := mkItem (OInt 1) 0]} false None None))
           "b" "a" eq_refl Hne eq_refl).
Defined.

(** ** Reading *)

Lemma Item_run (c : cache) :
  mu c = false -> Item_ c = Ok (items c) c [].
Proof. intros Hmu. open_cache c de m f j. reflexivity. Qed.

(** X4. Expiry is lazy.  [Get] on an item whose timestamp lies before the
    clock reading reports it missing and leaves it in storage: the cache is
    unchanged, nothing is called, [Item] still returns the item and
    [ItemCount], which is the size of what [Item] returns, still counts
    it. *)
Theorem Get_leaves_expired_item (c : cache) (k : string) (item : Item)
  (now : Z) :
  mu c = false ->
  items c !! k = Some item ->
  Expiration item < now ->
  Get k now c = Ok (ONil, false) c [] /\
  (exists m, Item_ c = Ok m c [] /\ m !! k = Some item /\
             ItemCount c = Ok (Z.of_nat (size m)) c []) /\
  (exists n, ItemCount c = Ok n c [] /\ 1 <= n).
Proof.
  intros Hmu Hk Hlt. split; [|split].
  - rewrite Get_run by exact Hmu. rewrite Hk.
    destruct (Expiration item <? now) eqn:E; [reflexivity | lia].
  - exists (items c). rewrite Item_run, ItemCount_run by exact Hmu.
    split; [reflexivity|]. split; [exact Hk | reflexivity].
  - exists (Z.of_nat (size (items c))).
    rewrite ItemCount_run by exact Hmu. split; [reflexivity|].
    destruct (decide (size (items c) = 0%nat)) as [H0|H0]; [|lia].
    apply map_size_empty_inv in H0. rewrite H0, lookup_empty in Hk.
    discriminate Hk.
Qed.

Lemma Get_leaves_expired_item_witness :
  let c := mkCache (-1) {["a" := mkItem (OInt 1) 5]} false None None in
  mu c = false /\ items c !! "a" = Some (mkItem (OInt 1) 5) /\ 5 < 10 /\
  Get "a" 10 c = Ok (ONil, false) c [].
Proof.
  assert (Hlt : 5 < 10) by reflexivity.
  split; [reflexivity|]. split; [reflexivity|]. split; [exact Hlt|].
  exact (proj1 (Get_leaves_expired_item
                  (mkCache (-1) {["a" := mkItem (OInt 1) 5]} false None None)
                  "a" (mkItem (OInt 1) 5) 10 eq_refl eq_refl Hlt)).
Defined.

(** X5. [ItemCount] follows [Set] and [Delete]: a [Set] on a key that
    holds no item raises it by one and a [Set] on a key that holds one,
    expired or not, leaves it as it is; a [Delete] of a key that holds an
    item lowers it by one and a [Delete] of an absent key leaves it as it
    is. *)
Theorem ItemCount_tracks_Set_and_Delete (c : cache) (k : string) :
  mu c = false ->
  let count c := returned (ItemCount c) in
  let n := Z.of_nat (size (items c)) in
  count c = Some n /\
  (forall x d now,
     count (cache_after (Set_ k x d now c) c) =
       Some (if items c !! k is Some _ then n else n + 1)) /\
  count (cache_after (Delete k c) c) =
    Some (if items c !! k is Some _ then n - 1 else n).
Proof.
  intros Hmu count n. subst count n. split; [|split].
  - rewrite ItemCount_run by exact Hmu. reflexivity.
  - intros x d now. rewrite Set_run by exact Hmu. cbn [cache_after].
    rewrite ItemCount_run by (destruct c; exact Hmu).
    cbn [returned]. f_equal.
    replace (items (with_items (<[k:=mkItem x (resolved c d now)]> (items c)) c))
      with (<[k:=mkItem x (resolved c d now)]> (items c))
      by (destruct c; reflexivity).
    rewrite map_size_insert. destruct (items c !! k); simpl; lia.
  - rewrite Delete_run by exact Hmu. cbn [cache_after].
    rewrite ItemCount_run by (destruct c; exact Hmu).
    cbn [returned]. f_equal.
    replace (items (with_items (delete k (items c)) c))
      with (delete k (items c)) by (destruct c; reflexivity).
    rewrite map_size_delete. destruct (items c !! k) eqn:Hk; simpl; [|lia].
    destruct (decide (size (items c) = 0%nat)) as [H0|H0]; [|lia].
    apply map_size_empty_inv in H0. rewrite H0, lookup_empty in Hk.
    discriminate Hk.
Qed.

Lemma ItemCount_tracks_Set_and_Delete_witness :
  let c := mkCache (-1) {["a" := mkItem (OInt 1) 5]} false None None in
  mu c = false /\
  returned (ItemCount (cache_after (Delete "a" c) c)) = Some 0.
Proof.
  split; [reflexivity|].
  exact (proj2 (proj2 (ItemCount_tracks_Set_and_Delete
                  (mkCache (-1) {["a" := mkItem (OInt 1) 5]} false None None)
                  "a" eq_refl))).
Defined.

(** ** After a failed Add *)

(** X6. Whenever [Add] returns the [KeyExists] error, it leaves the items
    as they were and the mutex held, and on the cache it leaves no call
    returns any more: [Set], [Add], [Replace], [Increment], [Get], [Delete],
    [DeleteExpired], [ItemCount], [Flush] and [Item] all block. *)
Theorem Add_KeyExists_holds_mutex (c : cache) (k : string) (x : Object)
  (d now now' : Z) :
  mu c = false ->
  returned (Add k x d now now' c) = Some (Some (KeyExists k)) ->
  let c' := cache_after (Add k x d now now' c) c in
  items c' = items c /\
  mu c' = true /\
  (forall o, exec o c' = None) /\
  Item_ c' = Blocked.
Proof.
  intros Hmu Hret c'.
  apply (Add_from_free_mutex c k x d now now' Hmu) in Hret
    as (item & Hk & Hl).
  subst c'. rewrite (Add_live c k x d now now' item Hmu Hk Hl).
  cbn [cache_after].
  assert (Hheld : mu (with_mu true c) = true) by reflexivity.
  split; [reflexivity|]. split; [reflexivity|]. split.
  - intros o.
    destruct (held_mutex_blocks (with_mu true c) Hheld)
      as (H1 & H2 & H3 & H4 & H5 & H6 & H7 & H8 & H9).
    destruct o; unfold exec;
      rewrite ?H1, ?H2, ?H3, ?H4, ?H5, ?H6, ?H7, ?H8, ?H9; reflexivity.
  - reflexivity.
Qed.

Lemma Add_KeyExists_holds_mutex_witness :
  let c := mkCache (-1) {["a" := mkItem (OInt 1) 0]} false None None in
  mu c = false /\
  returned (Add "a" (OInt 2) DefaultExpiration 100 100 c) =
    Some (Some (KeyExists "a")) /\
  exec (OpGet "a" 100)
    (cache_after (Add "a" (OInt 2) DefaultExpiration 100 100 c) c) = None.
Proof.
  split; [reflexivity|]. split; [reflexivity|].
  exact (proj1 (proj2 (proj2
    (Add_KeyExists_holds_mutex
       (mkCache (-1) {["a" := mkItem (OInt 1) 0]} false None None)
       "a" (OInt 2) DefaultExpiration 100 100 eq_refl eq_refl)))
    (OpGet "a" 100)).
Defined.

(** ** Items that never expire *)

(** X7. An item stored by [Set] with a duration that is not positive
    ([NoExpiration], or the default sentinel on a cache whose default is not
    positive) gets the timestamp 0.  At every clock reading after 1970 [Get]
    reports the key missing, while [Add] refuses it as existing, [Replace]
    accepts it, and a sweep leaves it in storage. *)
Theorem never_expiring_item_hidden_from_Get (c : cache) (k : string)
  (x y : Object) (d now now1 now2 d' : Z) (order : list string) :
  mu c = false ->
  duration_of c d <= 0 ->
  0 < now1 ->
  let c1 := cache_after (Set_ k x d now c) c in
  range_order (items c1) order ->
  items c1 !! k = Some (mkItem x 0) /\
  Get k now1 c1 = Ok (ONil, false) c1 [] /\
  returned (Add k y d' now1 now2 c1) = Some (Some (KeyExists k)) /\
  returned (Replace k y d' now1 now2 c1) = Some None /\
  items (cache_after (DeleteExpired now1 order c1) c1) !! k =
    Some (mkItem x 0).
Proof.
  intros Hmu Hd Hnow c1 Hord.
  assert (Hc1 : c1 = with_items (<[k := mkItem x 0]> (items c)) c).
  { subst c1. rewrite Set_run by exact Hmu. cbn [cache_after].
    rewrite resolved_duration.
    destruct (duration_of c d >? 0) eqn:E; [lia | reflexivity]. }
  assert (Hmu1 : mu c1 = false) by (rewrite Hc1; destruct c; exact Hmu).
  assert (Hk : items c1 !! k = Some (mkItem x 0)).
  { rewrite Hc1. destruct c. apply lookup_insert_eq. }
  assert (Hlive : live (mkItem x 0) now1).
  { unfold live, past_deadline. simpl. lia. }
  split; [exact Hk|]. split; [|split; [|split]].
  - apply (Get_zero_Expiration c1 k (mkItem x 0) now1 Hmu1 Hk eq_refl Hnow).
  - rewrite (Add_live c1 k y d' now1 now2 _ Hmu1 Hk Hlive). reflexivity.
  - rewrite (Replace_live c1 k y d' now1 now2 _ Hmu1 Hk Hlive). reflexivity.
  - rewrite (DeleteExpired_run now1 c1 order Hmu1 (range_order_NoDup _ _ Hord)).
    cbn [cache_after].
    replace (items (with_items (filter (stays now1 order) (items c1)) c1))
      with (filter (stays now1 order) (items c1)) by (destruct c1; reflexivity).
    apply map_lookup_filter_Some. split; [exact Hk|].
    unfold stays, past_deadline. simpl. lia.
Qed.

Lemma never_expiring_item_hidden_from_Get_witness :
  let c := fst (New 0 0) in
  let c1 := cache_after (Set_ "foo" (OString "bar") DefaultExpiration 1000 c) c in
  mu c = false /\
  duration_of c DefaultExpiration <= 0 /\
  0 < 2000 /\
  range_order (items c1) ["foo"] /\
  Get "foo" 2000 c1 = Ok (ONil, false) c1 [] /\
  returned (Add "foo" (OInt 1) DefaultExpiration 2000 2000 c1) =
    Some (Some (KeyExists "foo")).
Proof.
  intros c c1.
  assert (Hd : duration_of c DefaultExpiration <= 0) by (vm_compute; discriminate).
  assert (Hnow : 0 < 2000) by reflexivity.
  assert (Hord : range_order (items c1) ["foo"]).
  { unfold range_order. vm_compute. reflexivity. }
  split; [reflexivity|]. split; [exact Hd|]. split; [exact Hnow|].
  split; [exact Hord|].
  destruct (never_expiring_item_hidden_from_Get c "foo" (OString "bar")
              (OInt 1) DefaultExpiration 1000 2000 2000 DefaultExpiration
              ["foo"] eq_refl Hd Hnow Hord) as (_ & HG & HA & _).
  split; [exact HG | exact HA].
Defined.

(** ** Incrementing *)

Lemma wrap64_add_l (a b : Z) : wrap64 (wrap64 a + b) = wrap64 (a + b).
Proof.
  unfold wrap64. f_equal.
  replace ((a + 2 ^ 63) mod 2 ^ 64 - 2 ^ 63 + b + 2 ^ 63)
    with ((a + 2 ^ 63) mod 2 ^ 64 + b) by lia.
  rewrite Z.add_mod_idemp_l by lia. f_equal. lia.
Qed.

Lemma wrap64_add_r (a b : Z) : wrap64 (a + wrap64 b) = wrap64 (a + b).
Proof. rewrite (Z.add_comm a), wrap64_add_l. f_equal. lia. Qed.

Lemma Increment_int (c : cache) (k : string) (item : Item) (i n now : Z) :
  mu c = false ->
  items c !! k = Some item ->
  Expired item now = false ->
  Object_of item = OInt i ->
  Increment k n now c =
    Ok None
       (with_items
          (<[k := mkItem (OInt (add_int i n)) (Expiration item)]> (items c)) c)
       [].
Proof.
  intros Hmu Hk He Ho. open_cache c de m f j.
  unfold_op. rewrite Hk, He, Ho. reflexivity.
Qed.

(** X8. Increments add up: on a key that holds an [int] and has not
    expired at either call, [Increment] by [n] and then by [m] leaves the
    cache that one [Increment] by the 64-bit sum of [n] and [m] leaves, with
    the value [i + n + m] reduced to 64 bits and the timestamp the item
    had. *)
Theorem Increment_accumulates (c : cache) (k : string) (item : Item)
  (i n m now1 now2 : Z) :
  mu c = false ->
  items c !! k = Some item ->
  Object_of item = OInt i ->
  Expired item now1 = false ->
  Expired item now2 = false ->
  let c1 := cache_after (Increment k n now1 c) c in
  let c2 := cache_after (Increment k m now2 c1) c1 in
  Increment k m now2 c1 = Ok None c2 [] /\
  items c2 !! k = Some (mkItem (OInt (wrap64 (i + n + m))) (Expiration item)) /\
  c2 = cache_after (Increment k (wrap64 (n + m)) now1 c) c.
Proof.
  intros Hmu Hk Ho He1 He2 c1 c2.
  assert (Hc1 : c1 = with_items
            (<[k := mkItem (OInt (add_int i n)) (Expiration item)]> (items c)) c).
  { subst c1. rewrite (Increment_int c k item i n now1 Hmu Hk He1 Ho).
    reflexivity. }
  assert (Hrun : Increment k m now2 c1 =
            Ok None
               (with_items
                  (<[k := mkItem (OInt (add_int (add_int i n) m))
                            (Expiration item)]> (items c1)) c1) []).
  { apply (Increment_int c1 k
             (mkItem (OInt (add_int i n)) (Expiration item)) (add_int i n)).
    - rewrite Hc1. destruct c; exact Hmu.
    - rewrite Hc1. destruct c. apply lookup_insert_eq.
    - exact He2.
    - reflexivity. }
  assert (Hc2 : c2 = with_items
            (<[k := mkItem (OInt (wrap64 (i + n + m))) (Expiration item)]>
               (items c)) c).
  { subst c2. rewrite Hrun. cbn [cache_after]. rewrite Hc1.
    destruct c as [de mp b f j]. unfold with_items, add_int.
    cbn [items defaultExpiration mu onEvicted janitor_of].
    rewrite insert_insert_eq, wrap64_add_l. reflexivity. }
  split; [|split].
  - rewrite Hrun. subst c2. rewrite Hrun. reflexivity.
  - rewrite Hc2. destruct c. apply lookup_insert_eq.
  - rewrite Hc2.
    rewrite (Increment_int c k item i (wrap64 (n + m)) now1 Hmu Hk He1 Ho).
    cbn [cache_after]. unfold add_int. rewrite wrap64_add_r.
    replace (i + (n + m)) with (i + n + m) by lia. reflexivity.
Qed.

Lemma Increment_accumulates_witness :
  let c := mkCache (-1) {["num" := mkItem (OInt 10) 0]} false None None in
  let c1 := cache_after (Increment "num" 1 100 c) c in
  let c2 := cache_after (Increment "num" 2 200 c1) c1 in
  mu c = false /\
  items c !! "num" = Some (mkItem (OInt 10) 0) /\
  items c2 !! "num" = Some (mkItem (OInt 13) 0).
Proof.
  split; [reflexivity|]. split; [reflexivity|].
  exact (proj1 (proj2
    (Increment_accumulates
       (mkCache (-1) {["num" := mkItem (OInt 10) 0]} false None None)
       "num" (mkItem (OInt 10) 0) 10 1 2 100 200
       eq_refl eq_refl eq_refl eq_refl eq_refl))).
Defined.

(** X9. An [Increment] by [n] followed by one by [-n] gives back the cache
    it started from, whatever the sum in between wrapped to, when the stored
    [int] is a 64-bit value. *)
Theorem Increment_undone (c : cache) (k : string) (item : Item)
  (i n now1 now2 : Z) :
  mu c = false ->
  items c !! k = Some item ->
  Object_of item = OInt i ->
  min_int64 <= i <= max_int64 ->
  Expired item now1 = false ->
  Expired item now2 = false ->
  let c1 := cache_after (Increment k n now1 c) c in
  Increment k (- n) now2 c1 = Ok None c [].
Proof.
  intros Hmu Hk Ho Hi He1 He2 c1.
  assert (Hc1 : c1 = with_items
            (<[k := mkItem (OInt (add_int i n)) (Expiration item)]> (items c)) c).
  { subst c1. rewrite (Increment_int c k item i n now1 Hmu Hk He1 Ho).
    reflexivity. }
  rewrite (Increment_int c1 k (mkItem (OInt (add_int i n)) (Expiration item))
             (add_int i n) (- n) now2).
  - f_equal. rewrite Hc1.
    destruct c as [de mp b f j]. unfold with_items, add_int.
    cbn [items defaultExpiration mu onEvicted janitor_of] in *.
    rewrite insert_insert_eq, wrap64_add_l.
    replace (i + n + - n) with i by lia. rewrite wrap64_id by exact Hi.
    rewrite insert_id; [reflexivity|].
    rewrite Hk. destruct item as [o e]. simpl in Ho. subst o. reflexivity.
  - rewrite Hc1. destruct c; exact Hmu.
  - rewrite Hc1. destruct c. apply lookup_insert_eq.
  - exact He2.
  - reflexivity.
Qed.

Lemma Increment_undone_witness :
  let c := mkCache (-1) {["num" := mkItem (OInt 10) 0]} false None None in
  mu c = false /\
  items c !! "num" = Some (mkItem (OInt 10) 0) /\
  min_int64 <= 10 <= max_int64 /\
  Increment "num" (- 7) 200 (cache_after (Increment "num" 7 100 c) c) =
    Ok None c [].
Proof.
  assert (Hr : min_int64 <= 10 <= max_int64) by (vm_compute; split; discriminate).
  split; [reflexivity|]. split; [reflexivity|]. split; [exact Hr|].
  exact (Increment_undone
           (mkCache (-1) {["num" := mkItem (OInt 10) 0]} false None None)
           "num" (mkItem (OInt 10) 0) 10 7 100 200
           eq_refl eq_refl eq_refl Hr eq_refl eq_refl).
Defined.

(** ** Deleting *)

(** X10. After [Delete] the key holds nothing: [Get] reports it missing at
    every clock reading, [Replace] and [Increment] fail on it, [Add] stores
    under it, and a second [Delete] changes nothing and calls nothing. *)
Theorem Delete_then (c : cache) (k : string) :
  mu c = false ->
  let c1 := cache_after (Delete k c) c in
  items c1 !! k = None /\
  (forall now, Get k now c1 = Ok (ONil, false) c1 []) /\
  (forall x d now now',
     Replace k x d now now' c1 = Ok (Some (KeyNotFound_Replace k)) c1 []) /\
  (forall n now,
     Increment k n now c1 = Ok (Some KeyNotFound_Increment) c1 []) /\
  (forall x d now now',
     Add k x d now now' c1 =
       Ok None
          (with_items (<[k := mkItem x (resolved c1 d now')]> (items c1)) c1)
          []) /\
  Delete k c1 = Ok tt c1 [].
Proof.
  intros Hmu c1.
  assert (Hc1 : c1 = with_items (delete k (items c)) c).
  { subst c1. rewrite Delete_run by exact Hmu. reflexivity. }
  assert (Hmu1 : mu c1 = false) by (rewrite Hc1; destruct c; exact Hmu).
  assert (Hk : items c1 !! k = None).
  { rewrite Hc1. destruct c. apply lookup_delete_eq. }
  split; [exact Hk|]. split; [|split; [|split; [|split]]].
  - intros now. rewrite Get_run by exact Hmu1. rewrite Hk. reflexivity.
  - intros x d now now'. apply Replace_absent; assumption.
  - intros n now. clear Hc1. open_cache c1 de m f j.
    unfold_op. rewrite Hk. reflexivity.
  - intros x d now now'. apply Add_absent; assumption.
  - rewrite Delete_run by exact Hmu1. rewrite Hk.
    rewrite delete_id by exact Hk. rewrite with_items_id.
    destruct (onEvicted c1); reflexivity.
Qed.

Lemma Delete_then_witness :
  let c := mkCache (-1) {["foo" := mkItem (OString "bar") 0]} false
             (Some (Handler 0)) None in
  let c1 := cache_after (Delete "foo" c) c in
  mu c = false /\ Delete "foo" c1 = Ok tt c1 [].
Proof.
  split; [reflexivity|].
  exact (proj2 (proj2 (proj2 (proj2 (proj2
    (Delete_then
       (mkCache (-1) {["foo" := mkItem (OString "bar") 0]} false
          (Some (Handler 0)) None) "foo" eq_refl)))))).
Defined.

(** ** Sweeping *)

Section SweepAnyOrder.

Variable timeNow : Z.

(** The loop of the sweep, whatever keys it is made to visit: it only
    takes items away, and never one that is live. *)
Lemma DeleteExpired_range_any (order : list string) :
  forall (c : cache) (acc : list kv),
  exists acc' m',
    DeleteExpired_range timeNow order acc c = Ok acc' (with_items m' c) [] /\
    m' ⊆ items c /\
    (forall k item,
       items c !! k = Some item -> live item timeNow -> m' !! k = Some item) /\
    (onEvicted c = None -> acc' = acc).
Proof.
  induction order as [|k rest IH]; intros c acc.
  - exists acc, (items c). rewrite with_items_id. repeat split; auto.
  - cbn [DeleteExpired_range]. unfold bind.
    rewrite DeleteExpired_body_run.
    destruct (items c !! k) as [v|] eqn:Hv.
    + destruct (decide (past_deadline v timeNow)) as [Hp|Hl].
      * destruct (IH (with_items (delete k (items c)) c)
                    (match onEvicted c with
                     | Some _ => acc ++ [mkKv k (Object_of v)]
                     | None => acc
                     end)) as (acc' & m' & Hrun & Hsub & Hkeep & Hnil).
        exists acc', m'. rewrite Hrun.
        destruct c as [de m b f j]. unfold with_items in *.
        cbn [items onEvicted defaultExpiration mu janitor_of app] in *.
        split; [reflexivity|]. split; [|split].
        -- etrans; [exact Hsub | apply delete_subseteq].
        -- intros k0 item Hk0 Hlive. apply Hkeep; [|exact Hlive].
           rewrite lookup_delete_ne; [exact Hk0|].
           intros ->. rewrite Hv in Hk0. inversion Hk0; subst.
           exact (Hlive Hp).
        -- intros ->. apply Hnil. reflexivity.
      * destruct (IH c acc) as (acc' & m' & Hrun & Hrest).
        exists acc', m'. rewrite Hrun. split; [reflexivity | exact Hrest].
    + destruct (IH c acc) as (acc' & m' & Hrun & Hrest).
      exists acc', m'. rewrite Hrun. split; [reflexivity | exact Hrest].
Qed.

(** A sweep from a free mutex returns, whatever keys it visits. *)
Lemma DeleteExpired_any (c : cache) (order : list string) :
  mu c = false ->
  exists m' calls,
    DeleteExpired timeNow order c = Ok tt (with_items m' c) calls /\
    m' ⊆ items c /\
    (forall k item,
       items c !! k = Some item -> live item timeNow -> m' !! k = Some item) /\
    (onEvicted c = None -> calls = []).
Proof.
  intros Hmu.
  destruct (DeleteExpired_range_any order (with_mu true c) [])
    as (acc' & m' & Hrun & Hsub & Hkeep & Hnil).
  unfold DeleteExpired, bind at 1. unfold Lock. rewrite Hmu.
  unfold bind at 1. rewrite Hrun.
  destruct c as [de m b f j]. unfold with_items, with_mu in *.
  cbn [items onEvicted defaultExpiration mu janitor_of app] in *.
  subst b. unfold bind, Unlock.
  cbn [items onEvicted defaultExpiration mu janitor_of app].
  destruct f as [f|].
  - rewrite (DeleteExpired_notify_run _ f) by reflexivity.
    eexists m', _. split; [reflexivity|].
    split; [exact Hsub|]. split; [exact Hkeep | discriminate].
  - rewrite (Hnil eq_refl). exists m', []. split; [reflexivity|].
    split; [exact Hsub|]. split; [exact Hkeep | reflexivity].
Qed.

End SweepAnyOrder.

Lemma swept_cache (c : cache) (timeNow : Z) (order : list string) :
  mu c = false ->
  range_order (items c) order ->
  cache_after (DeleteExpired timeNow order c) c =
    with_items (filter (live_entry timeNow) (items c)) c.
Proof.
  intros Hmu Hord.
  rewrite (DeleteExpired_run timeNow c order Hmu (range_order_NoDup _ _ Hord)).
  rewrite (range_order_stays timeNow _ _ Hord). reflexivity.
Qed.

(** X11. A sweep has nothing left to do for a later sweep at the same or
    an earlier clock reading: that one leaves the cache as it is and calls
    nothing. *)
Theorem DeleteExpired_twice (c : cache) (timeNow timeNow' : Z)
  (order order' : list string) :
  mu c = false ->
  range_order (items c) order ->
  timeNow' <= timeNow ->
  let c1 := cache_after (DeleteExpired timeNow order c) c in
  range_order (items c1) order' ->
  DeleteExpired timeNow' order' c1 = Ok tt c1 [].
Proof.
  intros Hmu Hord Hle c1 Hord'.
  assert (Hc1 : c1 = with_items (filter (live_entry timeNow) (items c)) c)
    by (apply swept_cache; assumption).
  assert (Hmu1 : mu c1 = false) by (rewrite Hc1; destruct c; exact Hmu).
  assert (Hlive : forall k item, items c1 !! k = Some item -> live item timeNow').
  { intros k item. rewrite Hc1.
    replace (items (with_items (filter (live_entry timeNow) (items c)) c))
      with (filter (live_entry timeNow) (items c)) by (destruct c; reflexivity).
    rewrite map_lookup_filter_Some. unfold live_entry, live, past_deadline.
    simpl. lia. }
  rewrite (DeleteExpired_run timeNow' c1 order' Hmu1
             (range_order_NoDup _ _ Hord')).
  rewrite (range_order_stays timeNow' _ _ Hord').
  rewrite evicted_of_all_live by exact Hlive.
  rewrite map_filter_id by exact Hlive.
  rewrite with_items_id. destruct (onEvicted c1); reflexivity.
Qed.

Lemma DeleteExpired_twice_witness :
  let c := mkCache (-1)
             {["old" := mkItem (OInt 1) 5; "kept" := mkItem (OInt 2) 0]}
             false (Some (Handler 0)) None in
  let c1 := cache_after (DeleteExpired 10 ["old"; "kept"] c) c in
  mu c = false /\
  range_order (items c) ["old"; "kept"] /\
  10 <= 10 /\
  range_order (items c1) ["kept"] /\
  DeleteExpired 10 ["kept"] c1 = Ok tt c1 [].
Proof.
  intros c c1.
  assert (Hord : range_order (items c) ["old"; "kept"]).
  { unfold range_order. vm_compute. reflexivity. }
  assert (Hord' : range_order (items c1) ["kept"]).
  { unfold range_order. vm_compute. reflexivity. }
  assert (Hle : 10 <= 10) by lia.
  split; [reflexivity|]. split; [exact Hord|]. split; [exact Hle|].
  split; [exact Hord'|].
  exact (DeleteExpired_twice c 10 10 ["old"; "kept"] ["kept"]
           eq_refl Hord Hle Hord').
Defined.

(** X12. A sweep cannot be noticed by lookups made at its clock reading or
    later: [Get] and [get] answer after the sweep what they would have
    answered without it. *)
Theorem DeleteExpired_unseen_by_Get (c : cache) (timeNow now : Z)
  (order : list string) (k : string) :
  mu c = false ->
  range_order (items c) order ->
  timeNow <= now ->
  let c1 := cache_after (DeleteExpired timeNow order c) c in
  returned (Get k now c1) = returned (Get k now c) /\
  returned (get k now c1) = returned (get k now c).
Proof.
  intros Hmu Hord Hle c1.
  assert (Hc1 : c1 = with_items (filter (live_entry timeNow) (items c)) c)
    by (apply swept_cache; assumption).
  assert (Hmu1 : mu c1 = false) by (rewrite Hc1; destruct c; exact Hmu).
  assert (Hit : items c1 = filter (live_entry timeNow) (items c))
    by (rewrite Hc1; destruct c; reflexivity).
  rewrite !Get_run by assumption. rewrite !get_run. rewrite Hit.
  destruct (items c !! k) as [item|] eqn:Hk.
  - destruct (decide (live_entry timeNow (k, item))) as [Hl|Hp].
    + rewrite (map_lookup_filter_Some_2 _ _ _ _ Hk Hl).
      split.
      * destruct (Expiration item <? now); reflexivity.
      * destruct ((Expiration item >? 0) && (Expiration item <? now));
          reflexivity.
    + assert (Hnone : filter (live_entry timeNow) (items c) !! k = None).
      { apply map_lookup_filter_None. right. intros x Hx.
        rewrite Hk in Hx. inversion Hx; subst. exact Hp. }
      rewrite Hnone.
      assert (Hpast : 0 < Expiration item /\ Expiration item < timeNow).
      { unfold live_entry, live, past_deadline in Hp. simpl in Hp.
        destruct (decide (0 < Expiration item /\ Expiration item < timeNow));
          [assumption | contradiction]. }
      destruct Hpast as [Hpos Hlt].
      assert (E1 : (Expiration item <? now) = true) by (apply Z.ltb_lt; lia).
      assert (E2 : (Expiration item >? 0) = true) by (apply Z.gtb_lt; lia).
      rewrite E1, E2. split; reflexivity.
  - assert (Hnone : filter (live_entry timeNow) (items c) !! k = None).
    { apply map_lookup_filter_None. left. exact Hk. }
    rewrite Hnone. split; reflexivity.
Qed.

Lemma DeleteExpired_unseen_by_Get_witness :
  let c := mkCache (-1)
             {["old" := mkItem (OInt 1) 5; "kept" := mkItem (OInt 2) 50]}
             false None None in
  let c1 := cache_after (DeleteExpired 10 ["old"; "kept"] c) c in
  mu c = false /\
  range_order (items c) ["old"; "kept"] /\
  10 <= 20 /\
  returned (Get "kept" 20 c1) = returned (Get "kept" 20 c).
Proof.
  intros c c1.
  assert (Hord : range_order (items c) ["old"; "kept"]).
  { unfold range_order. vm_compute. reflexivity. }
  assert (Hle : 10 <= 20) by lia.
  split; [reflexivity|]. split; [exact Hord|]. split; [exact Hle|].
  exact (proj1 (DeleteExpired_unseen_by_Get c 10 20 ["old"; "kept"] "kept"
                  eq_refl Hord Hle)).
Defined.

Lemma size_live_dead (m : gmap string Item) (timeNow : Z) :
  (size (filter (live_entry timeNow) m)
   + size (filter (dead_entry timeNow) m))%nat = size m.
Proof.
  rewrite <- (map_filter_union_complement (dead_entry timeNow) m) at 3.
  rewrite map_size_disj_union by apply map_disjoint_filter_complement.
  rewrite Nat.add_comm. reflexivity.
Qed.

(** X13. A sweep never raises [ItemCount], and with a callback set it
    lowers it by exactly the number of calls it makes. *)
Theorem DeleteExpired_count (c : cache) (timeNow : Z) (order : list string) :
  mu c = false ->
  range_order (items c) order ->
  let r := DeleteExpired timeNow order c in
  exists n n',
    returned (ItemCount c) = Some n /\
    returned (ItemCount (cache_after r c)) = Some n' /\
    n' <= n /\
    (onEvicted c <> None -> n' + Z.of_nat (length (calls_of r)) = n).
Proof.
  intros Hmu Hord r.
  exists (Z.of_nat (size (items c))),
         (Z.of_nat (size (filter (live_entry timeNow) (items c)))).
  pose proof (size_live_dead (items c) timeNow) as Hsize.
  split; [rewrite ItemCount_run by exact Hmu; reflexivity|].
  split; [|split].
  - subst r. rewrite swept_cache by assumption.
    rewrite ItemCount_run by (destruct c; exact Hmu).
    destruct c; reflexivity.
  - lia.
  - intros Hf. subst r.
    rewrite (DeleteExpired_run timeNow c order Hmu (range_order_NoDup _ _ Hord)).
    destruct (onEvicted c) as [f|]; [|congruence]. cbn [calls_of].
    rewrite length_fmap.
    pose proof (evicted_of_Permutation timeNow (items c) order Hord) as Hperm.
    apply Permutation_length in Hperm.
    rewrite length_fmap, length_map_to_list, map_size_fmap in Hperm.
    lia.
Qed.

Lemma DeleteExpired_count_witness :
  let c := mkCache (-1)
             {["old" := mkItem (OInt 1) 5; "kept" := mkItem (OInt 2) 0]}
             false (Some (Handler 0)) None in
  mu c = false /\
  range_order (items c) ["old"; "kept"] /\
  exists n n',
    returned (ItemCount c) = Some n /\
    returned (ItemCount
                (cache_after (DeleteExpired 10 ["old"; "kept"] c) c)) = Some n' /\
    n' <= n.
Proof.
  intros c.
  assert (Hord : range_order (items c) ["old"; "kept"]).
  { unfold range_order. vm_compute. reflexivity. }
  split; [reflexivity|]. split; [exact Hord|].
  destruct (DeleteExpired_count c 10 ["old"; "kept"] eq_refl Hord)
    as (n & n' & Hn & Hn' & Hle & _).
  exists n, n'. split; [exact Hn|]. split; [exact Hn' | exact Hle].
Defined.

(** ** Every call *)

Lemma call_from_free_mutex (o : op) (c : cache) :
  mu c = false ->
  exists c' calls,
    run_op o c = Ok tt c' calls /\
    exec o c = Some c' /\
    defaultExpiration c' = defaultExpiration c /\
    onEvicted c' = onEvicted c /\
    janitor_of c' = janitor_of c /\
    (onEvicted c = None -> calls = []) /\
    (mu c' = true -> exists k x d now now', o = OpAdd k x d now now').
Proof.
  intros Hmu.
  destruct o as [k x d now|k x d now now'|k x d now now'|k n now|k now
                |k|timeNow order| |]; unfold run_op, exec.
  - rewrite Set_run by exact Hmu. eexists _, _.
    repeat split; try (destruct c; reflexivity).
    destruct c; simpl in *; congruence.
  - destruct (items c !! k) as [item|] eqn:Hk;
      [destruct (decide (past_deadline item now)) as [Hp|Hl]|].
    + rewrite (Add_expired c k x d now now' item Hmu Hk Hp). eexists _, _.
      repeat split; try (destruct c; reflexivity).
      destruct c; simpl in *; congruence.
    + rewrite (Add_live c k x d now now' item Hmu Hk Hl). eexists _, _.
      repeat split; try (destruct c; reflexivity). eauto 10.
    + rewrite (Add_absent c k x d now now' Hmu Hk). eexists _, _.
      repeat split; try (destruct c; reflexivity).
      destruct c; simpl in *; congruence.
  - destruct (items c !! k) as [item|] eqn:Hk;
      [destruct (decide (past_deadline item now)) as [Hp|Hl]|].
    + rewrite (Replace_expired c k x d now now' item Hmu Hk Hp). eexists _, _.
      repeat split; try reflexivity. congruence.
    + rewrite (Replace_live c k x d now now' item Hmu Hk Hl). eexists _, _.
      repeat split; try (destruct c; reflexivity).
      destruct c; simpl in *; congruence.
    + rewrite (Replace_absent c k x d now now' Hmu Hk). eexists _, _.
      repeat split; try reflexivity. congruence.
  - open_cache c de m f j. unfold_op.
    destruct (m !! k) as [v|];
      [destruct (Expired v now); [|destruct (Object_of v)]|];
      simpl; eexists _, _; repeat split; try reflexivity;
      simpl; congruence.
  - rewrite Get_run by exact Hmu.
    destruct (items c !! k) as [item|];
      [destruct (Expiration item <? now)|];
      eexists _, _; repeat split; try reflexivity; congruence.
  - rewrite Delete_run by exact Hmu. eexists _, _.
    repeat split; try (destruct c; reflexivity).
    + intros ->. reflexivity.
    + destruct c; simpl in *; congruence.
  - destruct (DeleteExpired_any timeNow c order Hmu)
      as (m' & calls & Hrun & _ & _ & Hnil).
    rewrite Hrun. exists (with_items m' c), calls.
    repeat split; try (destruct c; reflexivity); try exact Hnil.
    destruct c; simpl in *; congruence.
  - rewrite ItemCount_run by exact Hmu. eexists _, _.
    repeat split; try reflexivity. congruence.
  - open_cache c de m f j. eexists _, _.
    repeat split; try reflexivity. simpl. congruence.
Qed.

(** X14. From a free mutex every call returns: none blocks and none
    panics, so the callback is never called when it is nil and the mutex is
    never unlocked twice.  The call leaves the default expiration, the
    callback and the janitor as they were, makes no call of the callback
    when there is none, and leaves the mutex free unless it is an [Add]. *)
Theorem every_call_returns (o : op) (c : cache) :
  mu c = false ->
  exists c' calls,
    run_op o c = Ok tt c' calls /\
    exec o c = Some c' /\
    defaultExpiration c' = defaultExpiration c /\
    onEvicted c' = onEvicted c /\
    janitor_of c' = janitor_of c /\
    (onEvicted c = None -> calls = []) /\
    (mu c' = true -> exists k x d now now', o = OpAdd k x d now now').
Proof. apply call_from_free_mutex. Qed.

Lemma every_call_returns_witness :
  let c := mkCache (-1) {["foo" := mkItem (OString "bar") 0]} false
             None None in
  mu c = false /\
  exists c' calls, run_op (OpDelete "foo") c = Ok tt c' calls.
Proof.
  intros c. split; [reflexivity|].
  destruct (every_call_returns (OpDelete "foo") c eq_refl)
    as (c' & calls & Hrun & _).
  exists c', calls. exact Hrun.
Defined.

Lemma call_on_held_mutex (o : op) (c : cache) :
  mu c = true -> run_op o c = Blocked.
Proof.
  intros Hmu.
  destruct (held_mutex_blocks c Hmu)
    as (H1 & H2 & H3 & H4 & H5 & H6 & H7 & H8 & H9).
  destruct o; unfold run_op;
    rewrite ?H1, ?H2, ?H3, ?H4, ?H5, ?H6, ?H7, ?H8, ?H9; reflexivity.
Qed.

Lemma run_ops_without_callback (os : list op) :
  forall c : cache,
  onEvicted c = None ->
  run_ops os c = Blocked \/
  exists c', run_ops os c = Ok tt c' [] /\ onEvicted c' = None.
Proof.
  induction os as [|o rest IH]; intros c Hf.
  - right. exists c. split; [reflexivity | exact Hf].
  - cbn [run_ops]. unfold bind. destruct (mu c) eqn:Hmu.
    + left. rewrite call_on_held_mutex by exact Hmu. reflexivity.
    + destruct (call_from_free_mutex o c Hmu)
        as (c' & calls & Hrun & _ & _ & Hf' & _ & Hnil & _).
      rewrite Hrun. rewrite (Hnil Hf).
      assert (Hf1 : onEvicted c' = None) by congruence.
      destruct (IH c' Hf1) as [Hb | (c'' & Hr & Hf'')].
      * left. rewrite Hb. reflexivity.
      * right. exists c''. rewrite Hr. split; [reflexivity | exact Hf''].
Qed.

Lemma run_ops_without_Add (os : list op) :
  forall c : cache,
  mu c = false ->
  (forall k x d now now', OpAdd k x d now now' ∉ os) ->
  run_ops os c <> Blocked.
Proof.
  induction os as [|o rest IH]; intros c Hmu Hno Hb; [discriminate Hb|].
  cbn [run_ops] in Hb. unfold bind in Hb.
  destruct (call_from_free_mutex o c Hmu)
    as (c' & calls & Hrun & _ & _ & _ & _ & _ & Hadd).
  rewrite Hrun in Hb.
  destruct (mu c') eqn:Hmu'.
  - destruct (Hadd eq_refl) as (k & x & d & now & now' & ->).
    apply (Hno k x d now now'). left.
  - apply (IH c' Hmu').
    + intros k x d now now' Hin. apply (Hno k x d now now'). right.
      exact Hin.
    + destruct (run_ops rest c'); congruence.
Qed.

(** X15. No call assigns the callback, and [New] leaves it nil: whatever
    calls are made, in whatever order, on a cache built by [New], none of
    them calls the callback and none panics.  The sequence either returns
    or stops for good at the call that follows a failed [Add]. *)
Theorem New_cache_never_calls_back (de ci : Z) (os : list op) :
  let c := fst (New de ci) in
  onEvicted c = None /\
  run_ops os c <> Panic /\
  calls_of (run_ops os c) = [] /\
  ((forall k x d now now', OpAdd k x d now now' ∉ os) ->
   exists c', run_ops os c = Ok tt c' []).
Proof.
  intros c.
  assert (Hf : onEvicted c = None).
  { subst c. rewrite New_run. destruct (ci >? 0); reflexivity. }
  assert (Hmu : mu c = false).
  { subst c. rewrite New_run. destruct (ci >? 0); reflexivity. }
  split; [exact Hf|].
  destruct (run_ops_without_callback os c Hf) as [Hb | (c' & Hr & _)].
  - rewrite Hb. split; [discriminate|]. split; [reflexivity|].
    intros Hno. exfalso.
    exact (run_ops_without_Add os c Hmu Hno Hb).
  - rewrite Hr. split; [discriminate|]. split; [reflexivity|].
    intros _. exists c'. reflexivity.
Qed.

Lemma New_cache_never_calls_back_witness :
  let os := [OpSet "foo" (OString "bar") (5 * second) 1000;
             OpDelete "foo"; OpDeleteExpired 2000 []] in
  (forall k x d now now', OpAdd k x d now now' ∉ os) /\
  exists c', run_ops os (fst (New 0 0)) = Ok tt c' [].
Proof.
  intros os.
  assert (Hno : forall k x d now now', OpAdd k x d now now' ∉ os).
  { intros k x d now now' Hin. subst os.
    repeat (apply elem_of_cons in Hin as [Hin|Hin]; [discriminate Hin|]).
    inversion Hin. }
  split; [exact Hno|].
  exact (proj2 (proj2 (proj2 (New_cache_never_calls_back 0 0 os))) Hno).
Defined.

(** ** The janitor at work *)

Lemma Run_loop_from_free_mutex (signals : list signal) :
  forall c : cache,
  mu c = false ->
  exists st m' calls,
    Run_loop signals c = Ok st (with_items m' c) calls /\
    m' ⊆ items c /\
    (forall k item,
       items c !! k = Some item ->
       (forall t, t ∈ tick_times signals -> live item t) ->
       m' !! k = Some item) /\
    (onEvicted c = None -> calls = []) /\
    (st = Stopped <-> StopSignal ∈ signals).
Proof.
  induction signals as [|s rest IH]; intros c Hmu.
  - exists Running, (items c), []. rewrite with_items_id.
    split; [reflexivity|]. split; [reflexivity|]. split; [auto|].
    split; [auto|]. split; [discriminate|]. intros H. inversion H.
  - destruct s as [now order|].
    + cbn [Run_loop]. unfold bind.
      destruct (DeleteExpired_any now c order Hmu)
        as (m1 & calls1 & Hrun1 & Hsub1 & Hkeep1 & Hnil1).
      rewrite Hrun1.
      destruct (IH (with_items m1 c)) as
        (st & m2 & calls2 & Hrun2 & Hsub2 & Hkeep2 & Hnil2 & Hst).
      { destruct c; exact Hmu. }
      rewrite Hrun2. exists st, m2, (calls1 ++ calls2).
      destruct c as [de m b f j]. unfold with_items in *.
      cbn [items onEvicted defaultExpiration mu janitor_of] in *.
      split; [reflexivity|]. split; [etrans; eassumption|].
      split; [|split].
      * intros k item Hk Hlive. apply Hkeep2.
        -- apply Hkeep1; [exact Hk|]. apply Hlive. left.
        -- intros t Ht. apply Hlive. right. exact Ht.
      * intros Hf. rewrite (Hnil1 Hf), (Hnil2 Hf). reflexivity.
      * rewrite Hst. rewrite elem_of_cons. split; [auto|].
        intros [H|H]; [discriminate H | exact H].
    + exists Stopped, (items c), []. rewrite with_items_id.
      split; [reflexivity|]. split; [reflexivity|]. split; [auto|].
      split; [auto|]. split; [intros _; left | reflexivity].
Qed.

(** X16. The janitor only takes items away, and only expired ones.  On a
    cache whose mutex is free, whatever ticks and stop values reach it, its
    loop returns without blocking or panicking; the items it leaves are
    items the cache had, unchanged; and an item that is live at the clock
    reading of every tick, an item with timestamp 0 among them, is still
    there. *)
Theorem janitor_keeps_live_items (j : janitor) (signals : list signal)
  (c : cache) :
  0 < Interval j ->
  mu c = false ->
  exists st c' calls,
    Run j signals c = Ok st c' calls /\
    mu c' = false /\
    items c' ⊆ items c /\
    (forall k item,
       items c !! k = Some item ->
       (forall t, t ∈ tick_times signals -> live item t) ->
       items c' !! k = Some item) /\
    (forall k item,
       items c !! k = Some item -> Expiration item <= 0 ->
       items c' !! k = Some item) /\
    (onEvicted c = None -> calls = []).
Proof.
  intros Hpos Hmu. rewrite Run_positive_interval by exact Hpos.
  destruct (Run_loop_from_free_mutex signals c Hmu)
    as (st & m' & calls & Hrun & Hsub & Hkeep & Hnil & _).
  exists st, (with_items m' c), calls.
  replace (items (with_items m' c)) with m' by (destruct c; reflexivity).
  split; [exact Hrun|]. split; [destruct c; exact Hmu|].
  split; [exact Hsub|]. split; [exact Hkeep|]. split; [|exact Hnil].
  intros k item Hk He. apply Hkeep; [exact Hk|].
  intros t _. unfold live, past_deadline. lia.
Qed.

Lemma janitor_keeps_live_items_witness :
  let c := mkCache (-1)
             {["old" := mkItem (OInt 1) 5; "kept" := mkItem (OInt 2) 0]}
             false None None in
  0 < Interval (mkJanitor (30 * second)) /\
  mu c = false /\
  exists st c' calls,
    Run (mkJanitor (30 * second)) [Tick 10 ["old"; "kept"]; StopSignal] c =
      Ok st c' calls /\
    items c' ⊆ items c.
Proof.
  intros c.
  assert (Hpos : 0 < Interval (mkJanitor (30 * second))) by reflexivity.
  split; [exact Hpos|]. split; [reflexivity|].
  destruct (janitor_keeps_live_items (mkJanitor (30 * second))
              [Tick 10 ["old"; "kept"]; StopSignal] c Hpos eq_refl)
    as (st & c' & calls & Hrun & _ & Hsub & _).
  exists st, c', calls. split; [exact Hrun | exact Hsub].
Defined.

Lemma Run_loop_stop (pre post : list signal) (c : cache) :
  Run_loop (pre ++ StopSignal :: post) c = Run_loop (pre ++ [StopSignal]) c.
Proof.
  revert c. induction pre as [|s pre IH]; intros c; [reflexivity|].
  destruct s as [now order|]; [|reflexivity].
  cbn [app Run_loop]. unfold bind.
  destruct (DeleteExpired now order c) as [a c1 l1| |]; [|reflexivity..].
  rewrite IH. reflexivity.
Qed.

(** X17. The janitor's loop ends at the first stop value: what arrives
    after it, ticks included, has no effect, and the loop has then returned;
    without a stop value the loop is still waiting when the signals run
    out. *)
Theorem janitor_stops_at_first_StopSignal (j : janitor)
  (pre post : list signal) (c : cache) :
  0 < Interval j ->
  mu c = false ->
  Run j (pre ++ StopSignal :: post) c = Run j (pre ++ [StopSignal]) c /\
  returned (Run j (pre ++ StopSignal :: post) c) = Some Stopped /\
  (StopSignal ∉ pre -> returned (Run j pre c) = Some Running).
Proof.
  intros Hpos Hmu. rewrite !Run_positive_interval by exact Hpos.
  split; [apply Run_loop_stop|]. split.
  - destruct (Run_loop_from_free_mutex (pre ++ StopSignal :: post) c Hmu)
      as (st & m' & calls & Hrun & _ & _ & _ & Hst).
    rewrite Hrun. cbn [returned]. f_equal. apply Hst.
    apply elem_of_app. right. left.
  - intros Hno.
    destruct (Run_loop_from_free_mutex pre c Hmu)
      as (st & m' & calls & Hrun & _ & _ & _ & Hst).
    rewrite Hrun. cbn [returned]. f_equal.
    destruct st; [reflexivity|]. exfalso. apply Hno. apply Hst. reflexivity.
Qed.

Lemma janitor_stops_at_first_StopSignal_witness :
  let c := mkCache (-1) {["old" := mkItem (OInt 1) 5]} false None None in
  0 < Interval (mkJanitor second) /\
  mu c = false /\
  returned (Run (mkJanitor second) ([Tick 1 ["old"]] ++ StopSignal :: [Tick 10 ["old"]]) c)
    = Some Stopped.
Proof.
  intros c.
  assert (Hpos : 0 < Interval (mkJanitor second)) by reflexivity.
  split; [exact Hpos|]. split; [reflexivity|].
  exact (proj1 (proj2 (janitor_stops_at_first_StopSignal (mkJanitor second)
                  [Tick 1 ["old"]] [Tick 10 ["old"]] c Hpos eq_refl))).
Defined.

(** ** The expiry tests compared *)

(** X18. [Get] and [get] give the same answer for a key exactly when the
    key holds nothing, or its timestamp is positive, or its timestamp has
    not been passed: they differ on the items whose timestamp is 0 or
    negative and lies before the clock reading, which [get] finds and [Get]
    does not. *)
Theorem Get_agrees_with_get_iff (c : cache) (k : string) (now : Z) :
  mu c = false ->
  (returned (Get k now c) = returned (get k now c) <->
   items c !! k = None \/
   exists item, items c !! k = Some item /\
                (0 < Expiration item \/ now <= Expiration item)) /\
  (forall item,
     items c !! k = Some item -> Expiration item <= 0 ->
     Expiration item < now ->
     returned (Get k now c) = Some (ONil, false) /\
     returned (get k now c) = Some (Object_of item, true)).
Proof.
  intros Hmu. rewrite Get_run by exact Hmu. rewrite get_run.
  destruct (items c !! k) as [item|] eqn:Hk.
  - split.
    + assert (Hright : 0 < Expiration item \/ now <= Expiration item ->
                items c !! k = None \/
                exists item', Some item = Some item' /\
                  (0 < Expiration item' \/ now <= Expiration item')).
      { intros H. right. exists item. split; [reflexivity | exact H]. }
      rewrite Hk in Hright.
      destruct (Expiration item <? now) eqn:E1;
        destruct (Expiration item >? 0) eqn:E2; cbn [andb returned].
      * apply Z.gtb_lt in E2. split; [intros _ | reflexivity].
        apply Hright. left. exact E2.
      * apply Z.ltb_lt in E1. rewrite Z.gtb_ltb in E2. apply Z.ltb_ge in E2.
        split; [intros H; discriminate H|].
        intros [H | (item' & [= <-] & H)]; [discriminate H | lia].
      * apply Z.ltb_ge in E1. split; [intros _ | reflexivity].
        apply Hright. right. exact E1.
      * apply Z.ltb_ge in E1. split; [intros _ | reflexivity].
        apply Hright. right. exact E1.
    + intros item' [= <-] Hle Hlt.
      assert (E1 : (Expiration item <? now) = true) by (apply Z.ltb_lt; lia).
      assert (E2 : (Expiration item >? 0) = false).
      { destruct (Expiration item >? 0) eqn:E; [|reflexivity].
        apply Z.gtb_lt in E. lia. }
      rewrite E1, E2. split; reflexivity.
  - split; [|intros item H; discriminate H].
    split; [intros _; left; reflexivity | reflexivity].
Qed.

Lemma Get_agrees_with_get_iff_witness :
  let c := mkCache (-1) {["a" := mkItem (OInt 1) 0]} false None None in
  mu c = false /\
  returned (Get "a" 10 c) = Some (ONil, false) /\
  returned (get "a" 10 c) = Some (OInt 1, true).
Proof.
  split; [reflexivity|].
  assert (H1 : 0 <= 0) by lia. assert (H2 : 0 < 10) by lia.
  exact (proj2 (Get_agrees_with_get_iff
                  (mkCache (-1) {["a" := mkItem (OInt 1) 0]} false None None)
                  "a" 10 eq_refl) (mkItem (OInt 1) 0) eq_refl H1 H2).
Defined.

(** X19. [Increment] tests expiry with [Expired] and [Replace] with [get];
    on a key whose timestamp is not negative the two tests agree, so
    [Increment] reports the key missing exactly when [Replace] does. *)
Theorem Increment_and_Replace_agree_on_expiry (c : cache) (k : string)
  (item : Item) (n now : Z) (x : Object) (d now' : Z) :
  mu c = false ->
  items c !! k = Some item ->
  0 <= Expiration item ->
  returned (Increment k n now c) = Some (Some KeyNotFound_Increment) <->
  returned (Replace k x d now now' c) = Some (Some (KeyNotFound_Replace k)).
Proof.
  intros Hmu Hk Hnn.
  pose proof (Expired_past_deadline item now Hnn) as HE.
  destruct (decide (past_deadline item now)) as [Hp|Hl].
  - rewrite (Replace_expired c k x d now now' item Hmu Hk Hp).
    apply HE in Hp. open_cache c de m f j. unfold_op. rewrite Hk, Hp.
    split; reflexivity.
  - rewrite (Replace_live c k x d now now' item Hmu Hk Hl).
    assert (He : Expired item now = false).
    { destruct (Expired item now); [|reflexivity].
      exfalso. apply Hl. apply HE. reflexivity. }
    open_cache c de m f j. unfold_op. rewrite Hk, He.
    destruct (Object_of item); simpl; split; discriminate.
Qed.

Lemma Increment_and_Replace_agree_on_expiry_witness :
  let c := mkCache (-1) {["a" := mkItem (OInt 1) 5]} false None None in
  mu c = false /\ items c !! "a" = Some (mkItem (OInt 1) 5) /\ 0 <= 5 /\
  (returned (Increment "a" 1 10 c) = Some (Some KeyNotFound_Increment) <->
   returned (Replace "a" (OInt 2) 0 10 10 c) =
     Some (Some (KeyNotFound_Replace "a"))).
Proof.
  assert (Hnn : 0 <= 5) by lia.
  split; [reflexivity|]. split; [reflexivity|]. split; [exact Hnn|].
  exact (Increment_and_Replace_agree_on_expiry
           (mkCache (-1) {["a" := mkItem (OInt 1) 5]} false None None)
           "a" (mkItem (OInt 1) 5) 1 10 (OInt 2) 0 10 eq_refl eq_refl Hnn).
Defined.

(** ** Who calls the callback *)

(** X20. Only [Delete] and [DeleteExpired] call the eviction callback.
    [Set], [Add], [Replace], [Increment], [Get], [ItemCount] and [Flush]
    call nothing on any cache, also when they overwrite or discard items
    and a callback is set. *)
Theorem only_deletions_call_back (o : op) (c : cache) :
  is_deletion o = false -> calls_of (run_op o c) = [].
Proof.
  intros Hdel. destruct (mu c) eqn:Hmu.
  { rewrite call_on_held_mutex by exact Hmu. reflexivity. }
  destruct o as [k x d now|k x d now now'|k x d now now'|k n now|k now
                |k|timeNow order| |]; try discriminate Hdel; unfold run_op.
  - rewrite Set_run by exact Hmu. reflexivity.
  - destruct (items c !! k) as [item|] eqn:Hk;
      [destruct (decide (past_deadline item now)) as [Hp|Hl]|].
    + rewrite (Add_expired c k x d now now' item Hmu Hk Hp). reflexivity.
    + rewrite (Add_live c k x d now now' item Hmu Hk Hl). reflexivity.
    + rewrite (Add_absent c k x d now now' Hmu Hk). reflexivity.
  - destruct (items c !! k) as [item|] eqn:Hk;
      [destruct (decide (past_deadline item now)) as [Hp|Hl]|].
    + rewrite (Replace_expired c k x d now now' item Hmu Hk Hp). reflexivity.
    + rewrite (Replace_live c k x d now now' item Hmu Hk Hl). reflexivity.
    + rewrite (Replace_absent c k x d now now' Hmu Hk). reflexivity.
  - open_cache c de m f j. unfold_op.
    destruct (m !! k) as [v|];
      [destruct (Expired v now); [|destruct (Object_of v)]|]; reflexivity.
  - rewrite Get_run by exact Hmu.
    destruct (items c !! k) as [item|];
      [destruct (Expiration item <? now)|]; reflexivity.
  - rewrite ItemCount_run by exact Hmu. reflexivity.
  - open_cache c de m f j. reflexivity.
Qed.

Lemma only_deletions_call_back_witness :
  let c := mkCache (-1) {["a" := mkItem (OInt 1) 5]} false
             (Some (Handler 0)) None in
  is_deletion (OpSet "a" (OInt 2) 0 10) = false /\
  calls_of (run_op (OpSet "a" (OInt 2) 0 10) c) = [].
Proof.
  split; [reflexivity|].
  exact (only_deletions_call_back (OpSet "a" (OInt 2) 0 10)
           (mkCache (-1) {["a" := mkItem (OInt 1) 5]} false
              (Some (Handler 0)) None) eq_refl).
Defined.
